(** * dictionary_client: a DICT (RFC 2229) client

    A shallow embedding of [dictionary_client/dictionary_client.py]:
    the reply reader [_recv_all], the handshake ([__init__], [_connect],
    [_send_client_ident]), [disconnect], and the read-only lazy attributes
    [strategies] and [databases].

    Python values are modelled as follows: [bytes] objects are lists of
    [byte]; [int] is [Z]; [str] is [string]; an exception is a value of
    [exn]; a method is a function from the state of the object to a result
    and the new state. *)

From Stdlib Require Import ZArith Lia List Bool Strings.String Strings.Byte.
From stdpp Require Import gmap strings.
From Equations Require Import Equations.
Import ListNotations.
Open Scope Z_scope.

(** ** Byte strings *)

Abbreviation bytes := (list byte).

(** [b"..."] for text without escapes; control bytes are spelled out. *)
Definition b (text : string) : bytes := list_byte_of_string text.

Definition CRLF : bytes := [x0d; x0a].

(** [x == y] on [bytes]. *)
Fixpoint bytes_eqb (x y : bytes) : bool :=
  match x, y with
  | [], [] => true
  | c :: x', d :: y' => Byte.eqb c d && bytes_eqb x' y'
  | _, _ => false
  end.

(** [s.startswith(prefix)]. *)
Fixpoint startswith (s prefix : bytes) {struct prefix} : bool :=
  match prefix, s with
  | [], _ => true
  | p :: prefix', c :: s' => Byte.eqb p c && startswith s' prefix'
  | _ :: _, [] => false
  end.

(** [needle in s]: [needle] occurs in [s] as a contiguous run. *)
Fixpoint contains (needle s : bytes) : bool :=
  startswith s needle ||
  match s with
  | [] => false
  | _ :: s' => contains needle s'
  end.

(** [s[:n]] and [s[-n:]] for [n >= 0]; both clip at the ends of [s]. *)
Definition slice_to (n : nat) (s : bytes) : bytes := firstn n s.
Definition slice_last (n : nat) (s : bytes) : bytes :=
  skipn (length s - n) s.

(** ** [int(x)] on a [bytes] argument

    CPython reads a base-10 literal: ASCII whitespace, an optional sign,
    digits in which single underscores may separate digits, whitespace,
    and then the end of the argument.  Anything else is a [ValueError]
    (here [None]). *)

Definition is_space (c : byte) : bool :=
  match c with
  | x09 | x0a | x0b | x0c | x0d | x20 => true
  | _ => false
  end.

Definition digit_value (c : byte) : option Z :=
  let n := Byte.to_N c in
  if ((48 <=? n) && (n <=? 57))%N then Some (Z.of_N (n - 48)) else None.

Fixpoint skip_space (s : bytes) : bytes :=
  match s with
  | c :: s' => if is_space c then skip_space s' else s
  | [] => []
  end.

(** The digit loop: [acc] is the value so far and [prev_underscore] tells
    whether the byte before was an underscore.  It stops at the first byte
    that is neither a digit nor an underscore and returns the rest. *)
Fixpoint scan_digits (acc : Z) (prev_underscore : bool) (s : bytes)
  : option (Z * bytes) :=
  match s with
  | [] => if prev_underscore then None else Some (acc, [])
  | c :: s' =>
      match digit_value c with
      | Some d => scan_digits (10 * acc + d) false s'
      | None =>
          if Byte.eqb c x5f
          then if prev_underscore then None else scan_digits acc true s'
          else if prev_underscore then None else Some (acc, s)
      end
  end.

Definition int (x : bytes) : option Z :=
  let s := skip_space x in
  let '(sign, s) :=
    match s with
    | c :: s' =>
        if Byte.eqb c x2b then (1, s')
        else if Byte.eqb c x2d then (-1, s')
        else (1, s)
    | [] => (1, s)
    end in
  match s with
  | [] => None
  | c :: _ =>
      match digit_value c with
      | None => None
      | Some _ =>
          match scan_digits 0 false s with
          | Some (n, rest) =>
              match skip_space rest with
              | [] => Some (sign * n)
              | _ :: _ => None
              end
          | None => None
          end
      end
  end.

Example int_220 : int (b"220") = Some 220. Proof. reflexivity. Qed.
Example int_short : int (b"22") = Some 22. Proof. reflexivity. Qed.
Example int_space : int (b" 22") = Some 22. Proof. reflexivity. Qed.
Example int_cr : int (b"2" ++ CRLF) = Some 2. Proof. reflexivity. Qed.
Example int_sign : int (b"-22") = Some (-22). Proof. reflexivity. Qed.
Example int_underscore : int (b"2_0") = Some 20. Proof. reflexivity. Qed.
Example int_trailing_underscore : int (b"20_") = None. Proof. reflexivity. Qed.
Example int_leading_underscore : int (b"_20") = None. Proof. reflexivity. Qed.
Example int_empty : int [] = None. Proof. reflexivity. Qed.
Example int_letters : int (b"2yz") = None. Proof. reflexivity. Qed.
Example int_inner_space : int (b"2 0") = None. Proof. reflexivity. Qed.

(** ** [bytes.decode()]

    The default codec is strict UTF-8: [decode] raises [UnicodeDecodeError]
    unless the bytes are well-formed UTF-8 (no overlong forms, no
    surrogates, nothing above U+10FFFF). *)

Definition in_range (lo hi : N) (c : byte) : bool :=
  ((lo <=? Byte.to_N c) && (Byte.to_N c <=? hi))%N.

Definition continuation : byte -> bool := in_range 128 191.

Fixpoint utf8_valid (s : bytes) : bool :=
  match s with
  | [] => true
  | c0 :: s1 =>
      if in_range 0 127 c0 then utf8_valid s1
      else if in_range 194 223 c0 then
        match s1 with
        | c1 :: s2 => continuation c1 && utf8_valid s2
        | _ => false
        end
      else if in_range 224 239 c0 then
        match s1 with
        | c1 :: c2 :: s3 =>
            (if in_range 224 224 c0 then in_range 160 191 c1
             else if in_range 237 237 c0 then in_range 128 159 c1
             else continuation c1)
            && continuation c2 && utf8_valid s3
        | _ => false
        end
      else if in_range 240 244 c0 then
        match s1 with
        | c1 :: c2 :: c3 :: s4 =>
            (if in_range 240 240 c0 then in_range 144 191 c1
             else if in_range 244 244 c0 then in_range 128 143 c1
             else continuation c1)
            && continuation c2 && continuation c3 && utf8_valid s4
        | _ => false
        end
      else false
  end.

(** ** Exceptions and results *)

Inductive exn : Type :=
| TimeoutError (status_code : option Z)
    (** [None]: the client timed out expecting a server response;
        [Some c]: it timed out following a preliminary response with
        status [c], which the message quotes *)
| ValueError (literal : bytes)
    (** raised by [int]: invalid literal for int() with base 10 *)
| UnicodeDecodeError
| Exception (status_code : Z)
    (** [Exception(response.status_code)] *)
| ConnectionError (reply_text : bytes)
    (** unexpected response to the QUIT command; the message quotes the
        decoded reply, given here by its UTF-8 encoding *)
| AttributeError (message : string)
| ClosedSocketError
    (** what the socket layer raises for a call on a closed socket
        ([OSError] for [connect], [sendall] and [recv], [ValueError] for
        [select]) *)
| NeverReturns.
    (** not an exception: a blocking [recv] on a socket on which nothing
        will ever arrive does not return *)

Inductive result (A : Type) : Type :=
| Ok (value : A)
| Raise (e : exn).
Arguments Ok {A} value.
Arguments Raise {A} e.

(** A method with receiver state [St]: the state reached is kept when an
    exception is raised. *)
Definition M (St A : Type) : Type := St -> result A * St.

Definition ret {St A} (a : A) : M St A := fun st => (Ok a, st).
Definition raise {St A} (e : exn) : M St A := fun st => (Raise e, st).
Definition bind {St A B} (m : M St A) (k : A -> M St B) : M St B :=
  fun st =>
    match m st with
    | (Ok a, st') => k a st'
    | (Raise e, st') => (Raise e, st')
    end.

Declare Scope py_scope.
Delimit Scope py_scope with py.
Notation "x <~ m ;; k" := (bind m (fun x => k))
  (at level 100, m at next level, right associativity) : py_scope.
Notation "m ;;; k" := (bind m (fun _ => k))
  (at level 100, right associativity) : py_scope.
Open Scope py_scope.

(** ** The socket

    The transport is scripted: [pending] lists what the server will do, in
    order.  [Delay d] is [d] time units in which nothing arrives, [Data s]
    is the arrival of the segment [s]; once the script is used up nothing
    arrives any more.  A read that returns nothing is [Data []], and a
    script holds any number of them but not an unending run: a server
    that has closed the connection, after which every wait finds the
    socket readable and every read returns nothing, has no script.
    [calls] records every call made on the socket, the oldest first. *)

Definition BUF_SIZE : nat := 4096.
Definition DEFAULT_PORT : Z := 2628.

Inductive event : Type :=
| Delay (units : nat)
| Data (segment : bytes).

Inductive call : Type :=
| connect_call (host : string) (port : Z)
| select_call (timeout : nat)
| recv_call (bufsize : nat)
| sendall_call (data : bytes)
| close_call.

Record socket : Type := {
  pending : list event;
  closed : bool;
  calls : list call
}.

Definition logged (c : call) (s : socket) : socket :=
  {| pending := pending s; closed := closed s; calls := calls s ++ [c] |}.

Definition with_pending (evs : list event) (s : socket) : socket :=
  {| pending := evs; closed := closed s; calls := calls s |}.

(** Waiting up to [timeout] units for data: a delay longer than what is
    left of the bound uses the bound up, a shorter one is waited out. *)
Fixpoint wait_readable (timeout : nat) (evs : list event)
  : bool * list event :=
  match evs with
  | [] => (false, [])
  | Data _ :: _ => (true, evs)
  | Delay d :: evs' =>
      if (timeout <? d)%nat then (false, Delay (d - timeout) :: evs')
      else wait_readable (timeout - d) evs'
  end.

(** The next segment, however long it takes to arrive. *)
Fixpoint next_data (evs : list event) : option (bytes * list event) :=
  match evs with
  | [] => None
  | Data segment :: evs' => Some (segment, evs')
  | Delay _ :: evs' => next_data evs'
  end.

(** [sock.connect((host, port))]. *)
Definition connect (host : string) (port : Z) : M socket unit :=
  fun s =>
    let s := logged (connect_call host port) s in
    if closed s then (Raise ClosedSocketError, s) else (Ok tt, s).

(** [select.select([sock], [], [], timeout)], as [sock in rlist]. *)
Definition select (timeout : nat) : M socket bool :=
  fun s =>
    let s := logged (select_call timeout) s in
    if closed s then (Raise ClosedSocketError, s)
    else
      let '(ready, evs) := wait_readable timeout (pending s) in
      (Ok ready, with_pending evs s).

(** [sock.recv(bufsize)]: blocks until a segment is there, returns at most
    [bufsize] bytes of it and leaves the rest of the segment to be read. *)
Definition recv (bufsize : nat) : M socket bytes :=
  fun s =>
    let s := logged (recv_call bufsize) s in
    if closed s then (Raise ClosedSocketError, s)
    else
      match next_data (pending s) with
      | None => (Raise NeverReturns, s)
      | Some (segment, evs) =>
          (Ok (firstn bufsize segment),
           with_pending
             (if (length segment <=? bufsize)%nat then evs
              else Data (skipn bufsize segment) :: evs) s)
      end.

(** [sock.sendall(data)]. *)
Definition sendall (data : bytes) : M socket unit :=
  fun s =>
    let s := logged (sendall_call data) s in
    if closed s then (Raise ClosedSocketError, s) else (Ok tt, s).

(** [sock.close()]. *)
Definition close : M socket unit :=
  fun s =>
    (Ok tt,
     {| pending := pending s; closed := true; calls := calls s ++ [close_call] |}).

(** What is left of a script, counting every event and every byte: each
    [recv] that returns makes it smaller. *)
Fixpoint weight (evs : list event) : nat :=
  match evs with
  | [] => 0
  | Delay _ :: evs' => S (weight evs')
  | Data segment :: evs' => S (length segment + weight evs')
  end.

(** ** Replies and the status registry *)

Record Response (C : Type) : Type := {
  status_code : Z;
  content : C
}.
Arguments status_code {C} r.
Arguments content {C} r.

(** Modelled from the spec: the members of [DictStatusCode]
    ([status_codes.py] is not among the sources) that the client compares
    with: connection accepted is 220, ok is 250, closing connection is
    221. *)
Definition CONNECTION_ACCEPTED : Z := 220.
Definition OK : Z := 250.
Definition CLOSING_CONNECTION : Z := 221.

(** ** The client object *)

Record DictionaryClient : Type := {
  class_name : string;       (** [obj.__class__.__name__] *)
  client_name : string;
  client_id_info : string;
  sock : socket;
  server_info : option string;   (** unset until [_connect] has returned *)
  private : gmap string (list string)
    (** the attributes the descriptors keep on the object *)
}.

Definition with_sock (s : socket) (self : DictionaryClient)
  : DictionaryClient :=
  {| class_name := class_name self; client_name := client_name self;
     client_id_info := client_id_info self; sock := s;
     server_info := server_info self; private := private self |}.

Definition with_server_info (info : string) (self : DictionaryClient)
  : DictionaryClient :=
  {| class_name := class_name self; client_name := client_name self;
     client_id_info := client_id_info self; sock := sock self;
     server_info := Some info; private := private self |}.

(** [getattr(obj, name, None)] and [setattr(obj, name, value)] on the
    attributes of [private]. *)
Definition getattr (name : string) (self : DictionaryClient)
  : option (list string) :=
  private self !! name.

Definition setattr (name : string) (value : list string)
  : M DictionaryClient unit :=
  fun self =>
    (Ok tt,
     {| class_name := class_name self; client_name := client_name self;
        client_id_info := client_id_info self; sock := sock self;
        server_info := server_info self;
        private := <[name := value]> (private self) |}).

(** The object as [__init__] has set it up when it calls [_connect]. *)
Definition new_object (user hostname now : string) (new_sock : socket)
  : DictionaryClient :=
  let name := (user ++ "@" ++ hostname)%string in
  {| class_name := "DictionaryClient"; client_name := name;
     client_id_info := (name ++ " " ++ now)%string; sock := new_sock;
     server_info := None; private := ∅ |}.

(** A call on [self.sock]. *)
Definition on_sock {A} (m : M socket A) : M DictionaryClient A :=
  fun self => let '(r, s) := m (sock self) in (r, with_sock s self).

(** Truth value of an attribute read with default [None]: [None] and the
    empty list are false. *)
Definition truthy (value : option (list string)) : bool :=
  match value with
  | Some (_ :: _) => true
  | _ => false
  end.

(** ** Reading the status and judging completeness *)

(** A result that needs no state, as a step of a method. *)
Definition lift {St A} (r : result A) : M St A := fun st => (r, st).

(** [_get_status]: [int(response_bytes[:3])]. *)
Definition _get_status (response_bytes : bytes) : result Z :=
  match int (slice_to 3 response_bytes) with
  | Some n => Ok n
  | None => Raise (ValueError (slice_to 3 response_bytes))
  end.

(** [_response_complete]. *)
Definition _response_complete (response_bytes : bytes) : bool :=
  (startswith response_bytes (b"250")
   || contains (CRLF ++ b"250") response_bytes)
  && bytes_eqb (slice_last 2 response_bytes) CRLF.

(** ** Every read uses up some of the script *)

Lemma wait_readable_weight (timeout : nat) (evs : list event) :
  (weight (snd (wait_readable timeout evs)) <= weight evs)%nat.
Proof.
  revert timeout; induction evs as [|[d|segment] evs IH]; intros timeout;
    simpl; try lia.
  destruct (timeout <? d)%nat; simpl; [lia|].
  specialize (IH (timeout - d)%nat); lia.
Qed.

Lemma next_data_weight (evs rest : list event) (segment : bytes) :
  next_data evs = Some (segment, rest) ->
  (S (length segment + weight rest) <= weight evs)%nat.
Proof.
  induction evs as [|[d|seg] evs IH]; simpl; intros H; try discriminate.
  - specialize (IH H); lia.
  - injection H as -> ->; lia.
Qed.

Lemma select_weight (timeout : nat) (s s1 : socket) (r : result bool) :
  select timeout s = (r, s1) ->
  (weight (pending s1) <= weight (pending s))%nat.
Proof.
  unfold select; simpl. destruct (closed s).
  - intros [= _ <-]; simpl; lia.
  - pose proof (wait_readable_weight timeout (pending s)) as Hw.
    destruct (wait_readable timeout (pending s)) as [ready evs].
    intros [= _ <-]; simpl in *; lia.
Qed.

Lemma recv_weight (bufsize : nat) (s s1 : socket) (chunk : bytes) :
  (0 < bufsize)%nat ->
  recv bufsize s = (Ok chunk, s1) ->
  (weight (pending s1) < weight (pending s))%nat.
Proof.
  intros Hpos. unfold recv; simpl. destruct (closed s); [discriminate|].
  destruct (next_data (pending s)) as [[segment evs]|] eqn:Hnext;
    [|discriminate].
  apply next_data_weight in Hnext. intros [= _ <-]; simpl.
  destruct (length segment <=? bufsize)%nat eqn:Hle; simpl; [lia|].
  apply Nat.leb_gt in Hle. rewrite length_skipn. lia.
Qed.

Lemma on_sock_select_weight timeout self self1 (r : result bool) :
  on_sock (select timeout) self = (r, self1) ->
  (weight (pending (sock self1)) <= weight (pending (sock self)))%nat.
Proof.
  unfold on_sock. destruct (select timeout (sock self)) as [r' s'] eqn:Hs.
  intros [= _ <-]; simpl. eapply select_weight; eauto.
Qed.

Lemma on_sock_recv_weight bufsize self self1 (chunk : bytes) :
  (0 < bufsize)%nat ->
  on_sock (recv bufsize) self = (Ok chunk, self1) ->
  (weight (pending (sock self1)) < weight (pending (sock self)))%nat.
Proof.
  intros Hpos. unfold on_sock.
  destruct (recv bufsize (sock self)) as [r' s'] eqn:Hs.
  intros [= -> <-]; simpl. eapply recv_weight; eauto.
Qed.

Definition inspect {A} (a : A) : {x : A | a = x} := exist _ a eq_refl.

(** The [while] loop of [_recv_all], entered with the bytes of the first
    read and the status parsed from them. *)
Equations? receive_rest (status_code : Z) (bytes_received : bytes)
  (self : DictionaryClient) : result bytes * DictionaryClient
  by wf (weight (pending (sock self))) lt :=
receive_rest status_code bytes_received self
  with _response_complete bytes_received := {
  | true => (Ok bytes_received, self)
  | false with inspect (on_sock (select 5) self) := {
    | exist _ (Raise e, self1) _ => (Raise e, self1)
    | exist _ (Ok false, self1) _ =>
        (Raise (TimeoutError (Some status_code)), self1)
    | exist _ (Ok true, self1) Hselect
        with inspect (on_sock (recv BUF_SIZE) self1) := {
      | exist _ (Raise e, self2) _ => (Raise e, self2)
      | exist _ (Ok chunk, self2) Hrecv =>
          receive_rest status_code (bytes_received ++ chunk) self2 } } }.
Proof.
  apply on_sock_select_weight in Hselect.
  apply on_sock_recv_weight in Hrecv; [lia | unfold BUF_SIZE; lia].
Qed.

(** ** The read-only descriptors *)

Record ReadOnlyDescriptor : Type := {
  public_name : string;
  private_name : string
}.

(** [__set_name__]: run when the class body binds the descriptor to the
    attribute [name]. *)
Definition __set_name__ (name : string) : ReadOnlyDescriptor :=
  {| public_name := name; private_name := "_" ++ name |}.

Definition raise_read_only {A} (descriptor : ReadOnlyDescriptor)
  : M DictionaryClient A :=
  fun obj =>
    raise
      (AttributeError
         (class_name obj ++ "." ++ public_name descriptor
          ++ " is a read-only attribute"))
      obj.

(** [obj.name = value] and [del obj.name] for a name bound to a
    descriptor. *)
Definition __set__ (descriptor : ReadOnlyDescriptor) (value : list string)
  : M DictionaryClient unit :=
  raise_read_only descriptor.

Definition __delete__ (descriptor : ReadOnlyDescriptor)
  : M DictionaryClient unit :=
  raise_read_only descriptor.

(** The class attributes [strategies = Strategies()] and
    [databases = Databases()]. *)
Definition strategies : ReadOnlyDescriptor := __set_name__ "strategies".
Definition databases : ReadOnlyDescriptor := __set_name__ "databases".

(** [bytes.decode()]; the text is kept as its UTF-8 encoding. *)
Definition decode (x : bytes) : result bytes :=
  if utf8_valid x then Ok x else Raise UnicodeDecodeError.

(** ** The methods of the client

    The command builders ([commands.py]), the reply decoders
    ([response.py]) and the classification of status codes
    ([DictStatusCode.response_complete] in [status_codes.py]) are not
    among the sources: the client is given over any of them. *)

Section Client.

Variable response_complete : Z -> bool.
Variable client_ident_command : string -> bytes.
Variables disconnect_command show_strategies_command
  show_databases_command status_command : bytes.
Variables HandshakeResponse PreliminaryResponse
  : bytes -> result (Response string).
Variable ServerPropertiesResponse : bytes -> result (Response (list string)).

Definition _recv_all : M DictionaryClient bytes :=
  ready <~ on_sock (select 5) ;;
  if negb ready then raise (TimeoutError None)
  else
    bytes_received <~ on_sock (recv BUF_SIZE) ;;
    status_code <~ lift (_get_status bytes_received) ;;
    if response_complete status_code then ret bytes_received
    else receive_rest status_code bytes_received.

Definition _send_client_ident : M DictionaryClient unit :=
  fun self =>
    (on_sock (sendall (client_ident_command (client_id_info self))) ;;;
     reply <~ _recv_all ;;
     response <~ lift (PreliminaryResponse reply) ;;
     if negb (status_code response =? OK)
     then raise (Exception (status_code response))
     else ret tt) self.

(** The client once the identification has been sent. *)
Definition ident_sent (self : DictionaryClient) : DictionaryClient :=
  snd (on_sock (sendall (client_ident_command (client_id_info self))) self).

Definition _connect (host : string) (port : Z) : M DictionaryClient string :=
  on_sock (connect host port) ;;;
  reply <~ _recv_all ;;
  response <~ lift (HandshakeResponse reply) ;;
  if negb (status_code response =? CONNECTION_ACCEPTED)
  then raise (Exception (status_code response))
  else
    _send_client_ident ;;;
    ret (content response).

(** [__init__]: [user], [hostname] and [now] are what [getpass.getuser()],
    [socket.gethostname()] and [datetime.now().isoformat()] return, and
    [new_sock] is the socket [sock_class] makes. *)
Definition __init__ (user hostname now : string) (host : string) (port : Z)
  (new_sock : socket) : result unit * DictionaryClient :=
  (info <~ _connect host port ;;
   fun self => (Ok tt, with_server_info info self))
    (new_object user hostname now new_sock).

(** The call [DictionaryClient(host, port, sock_class)]: the caller gets
    the object only when [__init__] returns. *)
Definition new_client (user hostname now : string) (host : string) (port : Z)
  (new_sock : socket) : result DictionaryClient :=
  match __init__ user hostname now host port new_sock with
  | (Ok _, self) => Ok self
  | (Raise e, _) => Raise e
  end.

Definition _get_response {C} (command : bytes)
  (response_class : bytes -> result (Response C))
  : M DictionaryClient (Response C) :=
  on_sock (sendall command) ;;;
  reply <~ _recv_all ;;
  lift (response_class reply).

Definition get_server_status : M DictionaryClient (Response string) :=
  _get_response status_command PreliminaryResponse.

Definition disconnect : M DictionaryClient unit :=
  on_sock (sendall disconnect_command) ;;;
  bytes_recieved <~ _recv_all ;;
  status <~ lift (_get_status bytes_recieved) ;;
  if negb (status =? CLOSING_CONNECTION)
  then
    text <~ lift (decode bytes_recieved) ;;
    raise (ConnectionError text)
  else on_sock close.

(** [__get__] of [Strategies] and of [Databases], for an access on an
    instance. *)
Definition fetch_once (descriptor : ReadOnlyDescriptor) (command : bytes)
  : M DictionaryClient (list string) :=
  fun obj =>
    ((if negb (truthy (getattr (private_name descriptor) obj))
      then
        on_sock (sendall command) ;;;
        reply <~ _recv_all ;;
        response <~ lift (ServerPropertiesResponse reply) ;;
        setattr (private_name descriptor) (content response)
      else ret tt) ;;;
     fun obj =>
       match getattr (private_name descriptor) obj with
       | Some value => (Ok value, obj)
       | None =>
           (Raise (AttributeError (private_name descriptor)), obj)
       end) obj.

Definition Strategies__get__ (descriptor : ReadOnlyDescriptor)
  : M DictionaryClient (list string) :=
  fetch_once descriptor show_strategies_command.

Definition Databases__get__ (descriptor : ReadOnlyDescriptor)
  : M DictionaryClient (list string) :=
  fetch_once descriptor show_databases_command.

End Client.

(** ** The spec's reading of a reply, to compare the code with *)

(** The lines of [s]: the runs between CRLF sequences; [line] holds the
    bytes of the current line, last first. *)
Fixpoint split_crlf (line : bytes) (s : bytes) : list bytes :=
  match s with
  | [] => [rev line]
  | c :: s' =>
      match s' with
      | d :: s'' =>
          if Byte.eqb c x0d && Byte.eqb d x0a
          then rev line :: split_crlf [] s''
          else split_crlf (c :: line) s'
      | [] => split_crlf (c :: line) s'
      end
  end.

(** The buffer's tail is a terminator line: the buffer ends with CRLF and
    the line that this CRLF ends starts with the digits 250. *)
Definition ends_with_terminator_line (s : bytes) : bool :=
  match rev (split_crlf [] s) with
  | [] :: last_line :: _ => startswith last_line (b"250")
  | _ => false
  end.

(** A status line opens with exactly three digits: their value. *)
Definition three_digit_code (s : bytes) : option Z :=
  match s with
  | [c1; c2; c3] =>
      match digit_value c1, digit_value c2, digit_value c3 with
      | Some d1, Some d2, Some d3 => Some (100 * d1 + 10 * d2 + d3)
      | _, _, _ => None
      end
  | _ => None
  end.

(** ** A scripted server for the examples *)

(** Modelled from the spec: [DictStatusCode.response_complete], with the
    codes that sections 4.1 and 8 name as Terminal (status 210, connection
    accepted 220, closing connection 221, ok 250 and the error codes from
    400 up) complete on their status line, and every other code
    Preliminary. *)
Definition registry_response_complete (code : Z) : bool :=
  (code =? 210) || (code =? 220) || (code =? 221) || (code =? 250)
  || (400 <=? code).

Definition example_client_ident_command (info : string) : bytes :=
  b"CLIENT " ++ list_byte_of_string info ++ CRLF.
Definition example_disconnect_command : bytes := b"QUIT" ++ CRLF.
Definition example_show_strategies_command : bytes := b"SHOW STRAT" ++ CRLF.
Definition example_show_databases_command : bytes := b"SHOW DB" ++ CRLF.
Definition example_status_command : bytes := b"STATUS" ++ CRLF.

(** A decoder that keeps the status of the first line and the whole text. *)
Definition status_line_response (reply : bytes) : result (Response string) :=
  match _get_status reply with
  | Ok code =>
      Ok {| status_code := code; content := string_of_list_byte reply |}
  | Raise e => Raise e
  end.

Fixpoint until_period (lines : list bytes) : list bytes :=
  match lines with
  | [] => []
  | line :: lines' =>
      if bytes_eqb line (b".") then [] else line :: until_period lines'
  end.

(** A decoder whose content is the list of the body lines: the lines after
    the status line, up to the line that holds a single period. *)
Definition name_list_response (reply : bytes)
  : result (Response (list string)) :=
  match _get_status reply with
  | Ok code =>
      Ok {| status_code := code;
            content :=
              map string_of_list_byte
                (filter (fun line => negb (bytes_eqb line []))
                   (until_period (tl (split_crlf [] reply)))) |}
  | Raise e => Raise e
  end.

Definition scripted_socket (script : list event) : socket :=
  {| pending := script; closed := false; calls := [] |}.

(** A client that has completed the handshake, on a socket with what is
    left of the script. *)
Definition ready_client (script : list event) : DictionaryClient :=
  {| class_name := "DictionaryClient"; client_name := "user@host";
     client_id_info := "user@host 2024-05-01T12:00:00";
     sock := scripted_socket script; server_info := Some "dictd";
     private := ∅ |}.

Definition example_recv_all : M DictionaryClient bytes :=
  _recv_all registry_response_complete.

Definition example_new_client (script : list event)
  : result DictionaryClient :=
  new_client registry_response_complete example_client_ident_command
    status_line_response status_line_response
    "user" "host" "2024-05-01T12:00:00" "localhost" DEFAULT_PORT
    (scripted_socket script).

Definition example_disconnect : M DictionaryClient unit :=
  disconnect registry_response_complete example_disconnect_command.

Definition example_get_server_status : M DictionaryClient (Response string) :=
  get_server_status registry_response_complete example_status_command
    status_line_response.

Definition example_strategies : M DictionaryClient (list string) :=
  Strategies__get__ registry_response_complete
    example_show_strategies_command name_list_response strategies.

Definition example_databases : M DictionaryClient (list string) :=
  Databases__get__ registry_response_complete
    example_show_databases_command name_list_response databases.

(** The reply to the status command of section 8. *)
Definition status_reply : bytes := b"210 status text" ++ CRLF.

(** A definition that arrives in pieces 4 units apart and then stalls: the
    two waits of 4 units pass although they add up to more than 5, and the
    stall raises the timeout with the status 150. *)
Definition stalling_script : list event :=
  [Data (b"150 1 definitions" ++ CRLF); Delay 4;
   Data (b"151 word db" ++ CRLF); Delay 4; Data (b"text" ++ CRLF); Delay 6;
   Data (b"." ++ CRLF ++ b"250 ok" ++ CRLF)].

(** A greeting that the network delivers in two segments. *)
Definition split_greeting_script : list event :=
  [Data (b"220 dictd"); Data (b" ready" ++ CRLF)].

(** A definition whose text has a line that starts with the digits 250,
    cut by the network after a later line of the text. *)
Definition year_entry_first : bytes :=
  b"150 1 definitions retrieved" ++ CRLF ++ b"151 year wn" ++ CRLF
  ++ b"250 BC was a year" ++ CRLF ++ b"of the 3rd century BC" ++ CRLF.
Definition year_entry_second : bytes := b"." ++ CRLF ++ b"250 ok" ++ CRLF.
Definition year_entry_script : list event :=
  [Data year_entry_first; Data year_entry_second].

(** A server that refuses the quit command and answers the next one. *)
Definition refused_quit_script : list event :=
  [Data (b"500 unknown command" ++ CRLF); Data status_reply].

(** The reply to the request for the strategies, and the client once it
    has read it. *)
Definition strategies_reply : bytes :=
  b"111 2 strategies present" ++ CRLF ++ b"exact Match exactly" ++ CRLF
  ++ b"prefix Match prefixes" ++ CRLF ++ b"." ++ CRLF ++ b"250 ok" ++ CRLF.

Definition strategies_read : DictionaryClient :=
  with_sock
    {| pending := []; closed := false;
       calls :=
         [sendall_call example_show_strategies_command; select_call 5;
          recv_call BUF_SIZE] |}
    (ready_client [Data strategies_reply]).

(** A server that has no strategy to offer. *)
Definition no_strategies_reply : bytes :=
  b"555 No strategies available" ++ CRLF.

(** ** What the properties are stated with *)

(** The calls of [k] rounds: each read is preceded by a wait of its own,
    with the bound 5. *)
Definition rounds (k : nat) : list call :=
  concat (repeat [select_call 5; recv_call BUF_SIZE] k).

(** What the loop does on an open socket: it changes nothing but the
    socket, leaves it open, and either returns a buffer judged complete
    that extends the one it started with, or raises the timeout that
    quotes the status it was entered with, straight after a wait. *)
Definition loop_outcome (code : Z) (buf : bytes) (self : DictionaryClient)
  (k : nat) (out : result bytes * DictionaryClient) : Prop :=
  let '(r, self') := out in
  self' = with_sock (sock self') self /\
  closed (sock self') = false /\
  match r with
  | Ok reply =>
      _response_complete reply = true /\
      (exists more, reply = buf ++ more) /\
      calls (sock self') = calls (sock self) ++ rounds k
  | Raise e =>
      e = TimeoutError (Some code) /\
      calls (sock self') = calls (sock self) ++ rounds k ++ [select_call 5]
  end.

(** The client after the first wait and read of a call, when the wait
    found the segment [segment] with [rest] to follow. *)
Definition after_first_read (self : DictionaryClient) (segment : bytes)
  (rest : list event) : DictionaryClient :=
  with_sock
    {| pending :=
         if (length segment <=? BUF_SIZE)%nat then rest
         else Data (skipn BUF_SIZE segment) :: rest;
       closed := false;
       calls := calls (sock self) ++ [select_call 5; recv_call BUF_SIZE] |}
    self.

(** A method that changes nothing of the object but its socket. *)
Definition touches_only_sock {A} (m : M DictionaryClient A) : Prop :=
  forall self, snd (m self) = with_sock (sock (snd (m self))) self.

(** A call that only waits and reads. *)
Definition read_call (c : call) : Prop :=
  match c with
  | select_call _ | recv_call _ => True
  | _ => False
  end.

(** The lines joined again, with CRLF between them. *)
Fixpoint join_crlf (lines : list bytes) : bytes :=
  match lines with
  | [] => []
  | line :: lines' =>
      match lines' with
      | [] => line
      | _ :: _ => line ++ CRLF ++ join_crlf lines'
      end
  end.

(** ** The lookups

    [get_server_information], [get_help_text], [get_db_info], [define]
    and [match].  The word class ([word.py]) is not among the sources
    either: a word is what [Word] makes of the raw text, if it makes
    one. *)

(** The messages of the [ValueError]s that the lookups raise, which
    carry them as their text. *)
Definition invalid_database_message (db : string) : bytes :=
  b"Invalid database name: " ++ [x22] ++ list_byte_of_string db ++ [x22]
  ++ b" not present.".

Definition unknown_strategy_message (strategy : string) : bytes :=
  b"Unknown strategy: " ++ [x22] ++ list_byte_of_string strategy ++ [x22]
  ++ b".".

(** [name in names]. *)
Definition name_in (name : string) (names : list string) : bool :=
  existsb (String.eqb name) names.

Section Lookups.

Variable response_complete : Z -> bool.
Variables show_strategies_command show_databases_command
  show_server_command help_command : bytes.
Variable show_info_command : string -> bytes.
Variable ServerPropertiesResponse : bytes -> result (Response (list string)).
Variables MultiLine DatabaseInfo Definitions Matches word : Type.
Variable MultiLineResponse : bytes -> result (Response MultiLine).
Variable DatabaseInfoResponse : bytes -> result (Response DatabaseInfo).
Variable DefineWordResponse : bytes -> result (Response Definitions).
Variable MatchResponse : bytes -> result (Response Matches).
Variable Word : string -> result word.
Variable define_word_command : word -> string -> bytes.
Variable match_command : word -> string -> string -> bytes.

(** [self.databases] and [self.strategies]. *)
Definition self_databases : M DictionaryClient (list string) :=
  Databases__get__ response_complete show_databases_command
    ServerPropertiesResponse databases.

Definition self_strategies : M DictionaryClient (list string) :=
  Strategies__get__ response_complete show_strategies_command
    ServerPropertiesResponse strategies.

Definition get_server_information : M DictionaryClient (Response MultiLine) :=
  _get_response response_complete show_server_command MultiLineResponse.

Definition get_db_info (db : string)
  : M DictionaryClient (Response DatabaseInfo) :=
  names <~ self_databases ;;
  if negb (name_in db names)
  then raise (ValueError (invalid_database_message db))
  else
    _get_response response_complete (show_info_command db)
      DatabaseInfoResponse.

Definition get_help_text : M DictionaryClient (Response MultiLine) :=
  _get_response response_complete help_command MultiLineResponse.

(** [db != "*" and db not in self.databases], raising when it holds: the
    databases are asked for only when [db] is not the wildcard. *)
Definition require_database (db : string) : M DictionaryClient unit :=
  if negb (String.eqb db "*")
  then
    names <~ self_databases ;;
    if negb (name_in db names)
    then raise (ValueError (invalid_database_message db))
    else ret tt
  else ret tt.

(** [strategy != "." and strategy not in self.strategies], likewise. *)
Definition require_strategy (strategy : string) : M DictionaryClient unit :=
  if negb (String.eqb strategy ".")
  then
    names <~ self_strategies ;;
    if negb (name_in strategy names)
    then raise (ValueError (unknown_strategy_message strategy))
    else ret tt
  else ret tt.

Definition define (word_raw : string) (db : string)
  : M DictionaryClient (Response Definitions) :=
  require_database db ;;;
  w <~ lift (Word word_raw) ;;
  _get_response response_complete (define_word_command w db)
    DefineWordResponse.

(** [match]. *)
Definition match_word (word_raw : string) (db : string) (strategy : string)
  : M DictionaryClient (Response Matches) :=
  require_database db ;;;
  require_strategy strategy ;;;
  w <~ lift (Word word_raw) ;;
  _get_response response_complete (match_command w db strategy)
    MatchResponse.

End Lookups.

(** The lookups of the examples: a word is its raw text, and an empty
    text is no word. *)
Definition example_Word (word_raw : string) : result string :=
  match word_raw with
  | EmptyString => Raise (ValueError [])
  | _ => Ok word_raw
  end.

Definition example_show_info_command (db : string) : bytes :=
  b"SHOW INFO " ++ list_byte_of_string db ++ CRLF.

Definition example_define_word_command (w db : string) : bytes :=
  b"DEFINE " ++ list_byte_of_string db ++ b" " ++ list_byte_of_string w
  ++ CRLF.

Definition example_match_command (w db strategy : string) : bytes :=
  b"MATCH " ++ list_byte_of_string db ++ b" " ++ list_byte_of_string strategy
  ++ b" " ++ list_byte_of_string w ++ CRLF.

Definition example_get_db_info (db : string)
  : M DictionaryClient (Response string) :=
  get_db_info registry_response_complete example_show_databases_command
    example_show_info_command name_list_response string status_line_response
    db.

Definition example_define (word_raw db : string)
  : M DictionaryClient (Response string) :=
  define registry_response_complete example_show_databases_command
    name_list_response string string status_line_response example_Word
    example_define_word_command word_raw db.

Definition example_match (word_raw db strategy : string)
  : M DictionaryClient (Response string) :=
  match_word registry_response_complete example_show_strategies_command
    example_show_databases_command name_list_response string string
    status_line_response example_Word example_match_command word_raw db
    strategy.

(** The reply to the request for the databases, and a client that has
    read it and keeps its content. *)
Definition databases_reply : bytes :=
  b"110 2 databases present" ++ CRLF ++ b"wn" ++ CRLF ++ b"foldoc" ++ CRLF
  ++ b"." ++ CRLF ++ b"250 ok" ++ CRLF.

Definition client_with_databases (script : list event) : DictionaryClient :=
  snd (example_databases (ready_client (Data databases_reply :: script))).

(** ** More to state properties with *)

(** A reply that trickles in: each piece is a segment and the time that
    passes before it arrives. *)
Fixpoint trickle_script (pieces : list (nat * bytes)) : list event :=
  match pieces with
  | [] => []
  | (gap, segment) :: pieces' =>
      Delay gap :: Data segment :: trickle_script pieces'
  end.

(** A piece that arrives within the bound of one wait and fits one read. *)
Definition within_bounds (piece : nat * bytes) : Prop :=
  (fst piece <= 5)%nat /\ (length (snd piece) <= BUF_SIZE)%nat.

(** The bytes that a script delivers, in order. *)
Fixpoint stream (evs : list event) : bytes :=
  match evs with
  | [] => []
  | Delay _ :: evs' => stream evs'
  | Data segment :: evs' => segment ++ stream evs'
  end.

(** How many bytes of [s] are digits. *)
Fixpoint count_digits (s : bytes) : nat :=
  match s with
  | [] => 0
  | c :: s' =>
      match digit_value c with
      | Some _ => S (count_digits s')
      | None => count_digits s'
      end
  end.

(** * Properties *)

(** ** The socket calls on an open socket *)

Lemma select_open (timeout : nat) (s : socket) :
  closed s = false ->
  select timeout s =
  (Ok (fst (wait_readable timeout (pending s))),
   {| pending := snd (wait_readable timeout (pending s)); closed := false;
      calls := calls s ++ [select_call timeout] |}).
Proof.
  intros Hopen. unfold select, logged, with_pending; simpl. rewrite Hopen.
  destruct (wait_readable timeout (pending s)); reflexivity.
Qed.

Lemma wait_readable_ready (timeout : nat) (evs evs' : list event) :
  wait_readable timeout evs = (true, evs') ->
  exists segment rest, evs' = Data segment :: rest.
Proof.
  revert timeout; induction evs as [|[d|segment] evs IH]; intros timeout;
    simpl.
  - discriminate.
  - destruct (timeout <? d)%nat; [discriminate | apply IH].
  - intros [= <-]; eauto.
Qed.

Lemma recv_ready (bufsize : nat) (s : socket) (segment : bytes)
  (rest : list event) :
  closed s = false ->
  pending s = Data segment :: rest ->
  recv bufsize s =
  (Ok (firstn bufsize segment),
   {| pending :=
        if (length segment <=? bufsize)%nat then rest
        else Data (skipn bufsize segment) :: rest;
      closed := false; calls := calls s ++ [recv_call bufsize] |}).
Proof.
  intros Hopen Hpending. unfold recv, logged, with_pending; simpl.
  rewrite Hopen, Hpending; reflexivity.
Qed.

Lemma with_sock_same (self : DictionaryClient) :
  with_sock (sock self) self = self.
Proof. destruct self; reflexivity. Qed.

(** One round of the loop on an open socket: the wait, and the read when
    the wait found data. *)
Lemma on_sock_select_open (timeout : nat) (self : DictionaryClient) :
  closed (sock self) = false ->
  on_sock (select timeout) self =
  (Ok (fst (wait_readable timeout (pending (sock self)))),
   with_sock
     {| pending := snd (wait_readable timeout (pending (sock self)));
        closed := false;
        calls := calls (sock self) ++ [select_call timeout] |} self).
Proof.
  intros Hopen. unfold on_sock. rewrite select_open by assumption.
  reflexivity.
Qed.

Lemma on_sock_recv_ready (bufsize : nat) (self : DictionaryClient)
  (segment : bytes) (rest : list event) :
  closed (sock self) = false ->
  pending (sock self) = Data segment :: rest ->
  on_sock (recv bufsize) self =
  (Ok (firstn bufsize segment),
   with_sock
     {| pending :=
          if (length segment <=? bufsize)%nat then rest
          else Data (skipn bufsize segment) :: rest;
        closed := false;
        calls := calls (sock self) ++ [recv_call bufsize] |} self).
Proof.
  intros Hopen Hpending. unfold on_sock.
  rewrite (recv_ready _ _ _ _ Hopen Hpending). reflexivity.
Qed.

(** ** The loop *)

Lemma receive_rest_eq (code : Z) (buf : bytes) (self : DictionaryClient) :
  receive_rest code buf self =
  if _response_complete buf then (Ok buf, self)
  else
    match on_sock (select 5) self with
    | (Raise e, self1) => (Raise e, self1)
    | (Ok false, self1) => (Raise (TimeoutError (Some code)), self1)
    | (Ok true, self1) =>
        match on_sock (recv BUF_SIZE) self1 with
        | (Raise e, self2) => (Raise e, self2)
        | (Ok chunk, self2) => receive_rest code (buf ++ chunk) self2
        end
    end.
Proof.
  funelim (receive_rest code buf self); clear Heqcall;
    match goal with H : _response_complete _ = _ |- _ => rewrite H end;
    try match goal with H : on_sock (select _) _ = _ |- _ => rewrite H end;
    try match goal with H : on_sock (recv _) _ = _ |- _ => rewrite H end;
    reflexivity.
Qed.

Lemma rounds_S (k : nat) :
  [select_call 5; recv_call BUF_SIZE] ++ rounds k = rounds (S k).
Proof. reflexivity. Qed.

Lemma receive_rest_outcome (code : Z) (buf : bytes) (self : DictionaryClient) :
  closed (sock self) = false ->
  exists k, loop_outcome code buf self k (receive_rest code buf self).
Proof.
  remember (weight (pending (sock self))) as n eqn:Hn.
  revert buf self Hn.
  induction n as [n IH] using lt_wf_ind. intros buf self Hn Hopen.
  rewrite receive_rest_eq.
  destruct (_response_complete buf) eqn:Hcomplete.
  { exists 0%nat. simpl. rewrite with_sock_same, List.app_nil_r.
    repeat split; auto. exists []. now rewrite List.app_nil_r. }
  rewrite (on_sock_select_open 5 self Hopen).
  destruct (wait_readable 5 (pending (sock self))) as [ready evs] eqn:Hwait.
  simpl fst; simpl snd. destruct ready.
  2:{ exists 0%nat. simpl. repeat split; auto. }
  destruct (wait_readable_ready _ _ _ Hwait) as (segment & rest & ->).
  set (self1 := with_sock _ self).
  rewrite (on_sock_recv_ready BUF_SIZE self1 segment rest eq_refl eq_refl).
  set (self2 := with_sock _ self1).
  pose proof (wait_readable_weight 5 (pending (sock self))) as Hw.
  rewrite Hwait in Hw; simpl in Hw.
  assert (Hlt : (weight (pending (sock self2)) < n)%nat).
  { subst n self2; simpl.
    destruct (length segment <=? BUF_SIZE)%nat eqn:Hle; simpl; [lia|].
    apply Nat.leb_gt in Hle. rewrite length_skipn. unfold BUF_SIZE in *. lia. }
  destruct (IH _ Hlt (buf ++ firstn BUF_SIZE segment) self2 eq_refl eq_refl)
    as [k Hk].
  exists (S k). unfold loop_outcome in *.
  destruct (receive_rest code (buf ++ firstn BUF_SIZE segment) self2)
    as [r self'].
  destruct Hk as (Hframe & Hclosed & Hr).
  split; [exact Hframe | split; [exact Hclosed |]].
  destruct r as [reply|e].
  - destruct Hr as (Hc & (more & ->) & Hcalls). repeat split; auto.
    + exists (firstn BUF_SIZE segment ++ more). now rewrite app_assoc.
    + rewrite Hcalls. subst self2 self1; cbn [sock with_sock calls].
      rewrite <- rounds_S, <- !app_assoc. reflexivity.
  - destruct Hr as (He & Hcalls). split; auto.
    rewrite Hcalls. subst self2 self1; cbn [sock with_sock calls].
    rewrite <- rounds_S, <- !app_assoc. reflexivity.
Qed.

(** ** The rounds of the loop, one by one *)

(** A wait that finds data is followed by the read of that data. *)
Lemma one_round (round : DictionaryClient) (piece : bytes)
  (more : list event) :
  closed (sock round) = false ->
  wait_readable 5 (pending (sock round)) = (true, Data piece :: more) ->
  match on_sock (select 5) round with
  | (Ok true, waited) =>
      on_sock (recv BUF_SIZE) waited =
      (Ok (firstn BUF_SIZE piece), after_first_read round piece more)
  | _ => False
  end.
Proof.
  intros Hopen Hwait.
  rewrite (on_sock_select_open 5 round Hopen), Hwait. cbn [fst snd].
  set (waited := with_sock _ round).
  rewrite (on_sock_recv_ready BUF_SIZE waited piece more eq_refl eq_refl).
  unfold after_first_read, waited; cbn [sock with_sock calls].
  rewrite <- app_assoc. reflexivity.
Qed.

(** With an incomplete buffer, the loop reads the data that its wait
    finds, appends it, and goes on from there. *)
Lemma receive_rest_on_data (code : Z) (buf : bytes)
  (round : DictionaryClient) (piece : bytes) (more : list event) :
  closed (sock round) = false ->
  _response_complete buf = false ->
  wait_readable 5 (pending (sock round)) = (true, Data piece :: more) ->
  receive_rest code buf round =
  receive_rest code (buf ++ firstn BUF_SIZE piece)
    (after_first_read round piece more).
Proof.
  intros Hopen Hincomplete Hwait.
  pose proof (one_round round piece more Hopen Hwait) as Hround.
  rewrite (receive_rest_eq code buf round), Hincomplete.
  destruct (on_sock (select 5) round) as [[[|]|e] waited];
    try contradiction.
  now rewrite Hround.
Qed.

(** With an incomplete buffer, a wait that finds nothing ends the loop. *)
Lemma receive_rest_on_silence (code : Z) (buf : bytes)
  (round : DictionaryClient) :
  closed (sock round) = false ->
  _response_complete buf = false ->
  fst (wait_readable 5 (pending (sock round))) = false ->
  receive_rest code buf round =
  (Raise (TimeoutError (Some code)),
   with_sock
     {| pending := snd (wait_readable 5 (pending (sock round)));
        closed := false;
        calls := calls (sock round) ++ [select_call 5] |} round).
Proof.
  intros Hopen Hincomplete Hsilent.
  rewrite receive_rest_eq, Hincomplete.
  rewrite (on_sock_select_open 5 round Hopen), Hsilent. reflexivity.
Qed.

Lemma after_first_read_weight (round : DictionaryClient) (piece : bytes)
  (more : list event) :
  wait_readable 5 (pending (sock round)) = (true, Data piece :: more) ->
  (weight (pending (sock (after_first_read round piece more)))
   < weight (pending (sock round)))%nat.
Proof.
  intros Hwait.
  pose proof (wait_readable_weight 5 (pending (sock round))) as Hw.
  rewrite Hwait in Hw. cbn [snd weight] in Hw.
  unfold after_first_read; cbn [sock with_sock pending].
  destruct (length piece <=? BUF_SIZE)%nat eqn:Hle; cbn [weight]; [lia|].
  apply Nat.leb_gt in Hle. rewrite length_skipn. unfold BUF_SIZE in *. lia.
Qed.

(** Where the loop ends: after some rounds it is at a state [last],
    which differs from the one it started in by its socket alone; there
    it returns, or its wait finds nothing. *)
Lemma receive_rest_trace (code : Z) (buf : bytes) (self : DictionaryClient) :
  closed (sock self) = false ->
  exists k last,
    last = with_sock (sock last) self /\
    closed (sock last) = false /\
    calls (sock last) = calls (sock self) ++ rounds k /\
    match receive_rest code buf self with
    | (Ok _, self') => self' = last
    | (Raise e, self') =>
        e = TimeoutError (Some code) /\
        fst (wait_readable 5 (pending (sock last))) = false /\
        self' =
        with_sock
          {| pending := snd (wait_readable 5 (pending (sock last)));
             closed := false;
             calls := calls (sock last) ++ [select_call 5] |} last
    end.
Proof.
  remember (weight (pending (sock self))) as n eqn:Hn.
  revert buf self Hn.
  induction n as [n IH] using lt_wf_ind. intros buf self Hn Hopen.
  destruct (_response_complete buf) eqn:Hcomplete.
  { exists 0%nat, self. rewrite receive_rest_eq, Hcomplete.
    cbn [rounds repeat concat]. rewrite List.app_nil_r.
    repeat split; auto. now destruct self. }
  destruct (wait_readable 5 (pending (sock self))) as [[|] evs] eqn:Hwait.
  - destruct (wait_readable_ready _ _ _ Hwait) as (piece & more & ->).
    rewrite (receive_rest_on_data code buf self piece more Hopen Hcomplete
               Hwait).
    pose proof (after_first_read_weight self piece more Hwait) as Hlt.
    destruct (IH _ ltac:(subst n; exact Hlt) (buf ++ firstn BUF_SIZE piece)
                (after_first_read self piece more) eq_refl eq_refl)
      as (k & last & Hframe & Hlast_open & Hcalls & Hend).
    exists (S k), last.
    split; [| split; [exact Hlast_open | split; [|exact Hend]]].
    + transitivity
        (with_sock (sock last) (after_first_read self piece more));
        [exact Hframe | reflexivity].
    + rewrite Hcalls. unfold after_first_read; cbn [sock with_sock calls].
      rewrite <- rounds_S, <- !app_assoc. reflexivity.
  - exists 0%nat, self.
    rewrite (receive_rest_on_silence code buf self Hopen Hcomplete)
      by now rewrite Hwait.
    cbn [rounds repeat concat]. rewrite List.app_nil_r, Hwait.
    repeat split; auto. now destruct self.
Qed.

Lemma rounds_app (j k : nat) : rounds j ++ rounds k = rounds (j + k).
Proof.
  unfold rounds. now rewrite repeat_app, concat_app.
Qed.

(** Pieces that each arrive within the bound of one wait are all read,
    however long they take together, as long as they leave the buffer
    incomplete: the loop goes on from the buffer with all of them
    appended, one round later for each. *)
Lemma receive_rest_pieces (code : Z) (pieces : list (nat * bytes))
  (more : list event) (buf : bytes) (round : DictionaryClient) :
  closed (sock round) = false ->
  pending (sock round) = trickle_script pieces ++ more ->
  Forall within_bounds pieces ->
  (forall j, (j < length pieces)%nat ->
     _response_complete (buf ++ concat (map snd (firstn j pieces))) = false) ->
  receive_rest code buf round =
  receive_rest code (buf ++ concat (map snd pieces))
    (with_sock
       {| pending := more; closed := false;
          calls := calls (sock round) ++ rounds (length pieces) |} round).
Proof.
  revert buf round.
  induction pieces as [|[gap piece] pieces IH];
    intros buf round Hopen Hpending Hbounds Hincomplete.
  - cbn [map concat length rounds repeat]. rewrite !List.app_nil_r.
    f_equal.
    destruct round as [? ? ? [evs is_closed log] ? ?]; cbn in *.
    now subst.
  - apply Forall_cons_iff in Hbounds as [[Hgap Hfits] Hbounds].
    cbn [fst snd] in Hgap, Hfits.
    assert (Hfirst : _response_complete buf = false).
    { specialize (Hincomplete 0%nat ltac:(cbn; lia)).
      cbn in Hincomplete. now rewrite List.app_nil_r in Hincomplete. }
    assert (Hwait :
      wait_readable 5 (pending (sock round)) =
      (true, Data piece :: trickle_script pieces ++ more)).
    { rewrite Hpending. cbn [trickle_script app wait_readable].
      apply Nat.ltb_ge in Hgap. rewrite Hgap. reflexivity. }
    rewrite (receive_rest_on_data code buf round piece _ Hopen Hfirst Hwait).
    rewrite firstn_all2 by exact Hfits.
    rewrite (IH (buf ++ piece)
               (after_first_read round piece (trickle_script pieces ++ more))).
    + cbn [map concat length snd]. rewrite <- app_assoc. f_equal.
      unfold after_first_read; cbn [sock with_sock calls].
      rewrite <- rounds_S, <- !app_assoc. reflexivity.
    + reflexivity.
    + unfold after_first_read; cbn [sock with_sock pending].
      apply Nat.leb_le in Hfits. now rewrite Hfits.
    + exact Hbounds.
    + intros j Hj. specialize (Hincomplete (S j) ltac:(cbn; lia)).
      cbn [firstn map concat snd] in Hincomplete.
      now rewrite <- app_assoc.
Qed.

(** Reads that return nothing change nothing but the record of calls:
    the loop is where it was, one round later for each of them. *)
Lemma receive_rest_empty_reads (code : Z) (n : nat) (more : list event)
  (buf : bytes) (round : DictionaryClient) :
  closed (sock round) = false ->
  _response_complete buf = false ->
  pending (sock round) = repeat (Data []) n ++ more ->
  receive_rest code buf round =
  receive_rest code buf
    (with_sock
       {| pending := more; closed := false;
          calls := calls (sock round) ++ rounds n |} round).
Proof.
  intros Hopen Hincomplete. revert round Hopen.
  induction n as [|n IH]; intros round Hopen Hpending.
  - cbn [rounds repeat concat]. rewrite List.app_nil_r. f_equal.
    destruct round as [? ? ? [evs is_closed log] ? ?]; cbn in *.
    now subst.
  - assert (Hwait :
      wait_readable 5 (pending (sock round)) =
      (true, Data [] :: repeat (Data []) n ++ more))
      by now rewrite Hpending.
    rewrite (receive_rest_on_data code buf round [] _ Hopen Hincomplete
               Hwait).
    cbn [firstn]. rewrite List.app_nil_r.
    rewrite (IH (after_first_read round [] (repeat (Data []) n ++ more)))
      by reflexivity.
    f_equal. unfold after_first_read; cbn [sock with_sock calls].
    rewrite <- rounds_S, <- !app_assoc. reflexivity.
Qed.

(** ** [_recv_all] *)

Section Assemble.

Variable response_complete : Z -> bool.

Lemma recv_all_eq (self : DictionaryClient) :
  _recv_all response_complete self =
  match on_sock (select 5) self with
  | (Raise e, self1) => (Raise e, self1)
  | (Ok false, self1) => (Raise (TimeoutError None), self1)
  | (Ok true, self1) =>
      match on_sock (recv BUF_SIZE) self1 with
      | (Raise e, self2) => (Raise e, self2)
      | (Ok chunk, self2) =>
          match _get_status chunk with
          | Raise e => (Raise e, self2)
          | Ok code =>
              if response_complete code then (Ok chunk, self2)
              else receive_rest code chunk self2
          end
      end
  end.
Proof.
  unfold _recv_all, bind, raise, ret, lift.
  destruct (on_sock (select 5) self) as [[[|]|e] self1]; simpl; auto.
  destruct (on_sock (recv BUF_SIZE) self1) as [[chunk|e] self2]; auto.
  destruct (_get_status chunk) as [code|e]; auto.
  destruct (response_complete code); reflexivity.
Qed.

Lemma recv_all_first_read (self : DictionaryClient) (segment : bytes)
  (rest : list event) :
  closed (sock self) = false ->
  wait_readable 5 (pending (sock self)) = (true, Data segment :: rest) ->
  _recv_all response_complete self =
  match _get_status (firstn BUF_SIZE segment) with
  | Raise e => (Raise e, after_first_read self segment rest)
  | Ok code =>
      if response_complete code
      then (Ok (firstn BUF_SIZE segment), after_first_read self segment rest)
      else
        receive_rest code (firstn BUF_SIZE segment)
          (after_first_read self segment rest)
  end.
Proof.
  intros Hopen Hwait. rewrite recv_all_eq.
  rewrite (on_sock_select_open 5 self Hopen), Hwait. simpl fst; simpl snd.
  set (self1 := with_sock _ self).
  rewrite (on_sock_recv_ready BUF_SIZE self1 segment rest eq_refl eq_refl).
  assert (Hafter :
    with_sock
      {| pending :=
           if (length segment <=? BUF_SIZE)%nat then rest
           else Data (skipn BUF_SIZE segment) :: rest;
         closed := false;
         calls := calls (sock self1) ++ [recv_call BUF_SIZE] |} self1
    = after_first_read self segment rest).
  { unfold after_first_read, self1; cbn [sock with_sock calls].
    rewrite <- app_assoc. reflexivity. }
  rewrite Hafter. reflexivity.
Qed.

(** C3: a reply that is one line ending in CRLF, with a status code that
    the registry classifies as complete, and that the first read delivers
    whole, is returned unchanged; the only calls made on the socket are
    that one wait and that one read. *)
Theorem recv_all_single_line (self : DictionaryClient) (text : bytes)
  (rest : list event) (code : Z) :
  closed (sock self) = false ->
  wait_readable 5 (pending (sock self)) = (true, Data (text ++ CRLF) :: rest) ->
  (length (text ++ CRLF) <= BUF_SIZE)%nat ->
  contains CRLF text = false ->
  _get_status (text ++ CRLF) = Ok code ->
  response_complete code = true ->
  _recv_all response_complete self =
  (Ok (text ++ CRLF),
   with_sock
     {| pending := rest; closed := false;
        calls := calls (sock self) ++ [select_call 5; recv_call BUF_SIZE] |}
     self).
Proof.
  intros Hopen Hwait Hfits _ Hstatus Hterminal.
  rewrite (recv_all_first_read self _ _ Hopen Hwait).
  rewrite firstn_all2 by exact Hfits. rewrite Hstatus, Hterminal.
  unfold after_first_read. apply Nat.leb_le in Hfits. rewrite Hfits.
  reflexivity.
Qed.

(** C5: when nothing arrives within the 5 units of the first wait,
    [_recv_all] raises the [TimeoutError] of a missing response; it made
    that one wait, read nothing and returns no buffer. *)
Theorem recv_all_no_data_timeout (self : DictionaryClient) :
  closed (sock self) = false ->
  fst (wait_readable 5 (pending (sock self))) = false ->
  _recv_all response_complete self =
  (Raise (TimeoutError None),
   with_sock
     {| pending := snd (wait_readable 5 (pending (sock self)));
        closed := false;
        calls := calls (sock self) ++ [select_call 5] |} self).
Proof.
  intros Hopen Hsilent. rewrite recv_all_eq.
  rewrite (on_sock_select_open 5 self Hopen), Hsilent. reflexivity.
Qed.

(** C6: once the first read has given a status code that the registry
    does not classify as complete, [_recv_all] is the loop, started on
    what that read returned.  At each round with an incomplete buffer the
    loop waits with the bound 5: when the wait finds data, the loop reads
    it, appends it and goes on to the next round, which has a wait of its
    own; when the wait finds nothing, the loop raises the [TimeoutError]
    that quotes the code.  So pieces that each arrive within 5 units of
    the read before them are all read, however long they take together:
    the call returns the joined reply when the last of them completes
    it, and raises that error when they leave it incomplete and the wait
    after the last of them finds nothing.  Whenever the call comes back,
    it has made rounds of one wait and one read each and has changed
    nothing but the socket; a reply it returns is one that
    [_response_complete] accepts; and a failure is that error, raised
    straight after one more wait, which found nothing. *)
Theorem recv_all_continuation_timeout (self : DictionaryClient)
  (segment : bytes) (rest : list event) (code : Z) :
  closed (sock self) = false ->
  wait_readable 5 (pending (sock self)) = (true, Data segment :: rest) ->
  _get_status (firstn BUF_SIZE segment) = Ok code ->
  response_complete code = false ->
  _recv_all response_complete self =
  receive_rest code (firstn BUF_SIZE segment)
    (after_first_read self segment rest) /\
  (forall (buf : bytes) (round : DictionaryClient) (piece : bytes)
     (more : list event),
     closed (sock round) = false ->
     _response_complete buf = false ->
     wait_readable 5 (pending (sock round)) = (true, Data piece :: more) ->
     receive_rest code buf round =
     receive_rest code (buf ++ firstn BUF_SIZE piece)
       (after_first_read round piece more)) /\
  (forall (buf : bytes) (round : DictionaryClient),
     closed (sock round) = false ->
     _response_complete buf = false ->
     fst (wait_readable 5 (pending (sock round))) = false ->
     fst (receive_rest code buf round) = Raise (TimeoutError (Some code))) /\
  (forall (pieces : list (nat * bytes)) (more : list event),
     (length segment <= BUF_SIZE)%nat ->
     rest = trickle_script pieces ++ more ->
     Forall within_bounds pieces ->
     (forall j, (j < length pieces)%nat ->
        _response_complete
          (segment ++ concat (map snd (firstn j pieces))) = false) ->
     (_response_complete (segment ++ concat (map snd pieces)) = true ->
      _recv_all response_complete self =
      (Ok (segment ++ concat (map snd pieces)),
       with_sock
         {| pending := more; closed := false;
            calls := calls (sock self) ++ rounds (S (length pieces)) |}
         self)) /\
     (_response_complete (segment ++ concat (map snd pieces)) = false ->
      fst (wait_readable 5 more) = false ->
      _recv_all response_complete self =
      (Raise (TimeoutError (Some code)),
       with_sock
         {| pending := snd (wait_readable 5 more); closed := false;
            calls :=
              calls (sock self) ++ rounds (S (length pieces))
              ++ [select_call 5] |}
         self))) /\
  (forall (r : result bytes) (self' : DictionaryClient),
     _recv_all response_complete self = (r, self') ->
     exists k last,
       last = with_sock (sock last) self /\
       closed (sock last) = false /\
       calls (sock last) = calls (sock self) ++ rounds (S k) /\
       match r with
       | Ok reply => _response_complete reply = true /\ self' = last
       | Raise e =>
           e = TimeoutError (Some code) /\
           fst (wait_readable 5 (pending (sock last))) = false /\
           self' =
           with_sock
             {| pending := snd (wait_readable 5 (pending (sock last)));
                closed := false;
                calls := calls (sock last) ++ [select_call 5] |} last
       end).
Proof.
  intros Hopen Hwait Hstatus Hpreliminary.
  assert (Hloop :
    _recv_all response_complete self =
    receive_rest code (firstn BUF_SIZE segment)
      (after_first_read self segment rest)).
  { rewrite (recv_all_first_read self _ _ Hopen Hwait).
    now rewrite Hstatus, Hpreliminary. }
  split; [exact Hloop | split; [|split; [|split]]].
  - intros buf round piece more. apply receive_rest_on_data.
  - intros buf round Hopen' Hincomplete Hsilent.
    now rewrite (receive_rest_on_silence code buf round Hopen' Hincomplete
                   Hsilent).
  - intros pieces more Hfits -> Hbounds Hincomplete.
    assert (Hpieces :
      _recv_all response_complete self =
      receive_rest code (segment ++ concat (map snd pieces))
        (with_sock
           {| pending := more; closed := false;
              calls := calls (sock self) ++ rounds (S (length pieces)) |}
           self)).
    { rewrite Hloop, firstn_all2 by exact Hfits.
      rewrite (receive_rest_pieces code pieces more segment
                 (after_first_read self segment
                    (trickle_script pieces ++ more)) eq_refl).
      - f_equal. unfold after_first_read; cbn [sock with_sock calls].
        rewrite <- rounds_S, <- !app_assoc. reflexivity.
      - unfold after_first_read; cbn [sock with_sock pending].
        apply Nat.leb_le in Hfits. now rewrite Hfits.
      - exact Hbounds.
      - exact Hincomplete. }
    split.
    + intros Hcomplete. rewrite Hpieces, receive_rest_eq, Hcomplete.
      reflexivity.
    + intros Hstill Hsilent. rewrite Hpieces.
      rewrite receive_rest_on_silence;
        [| reflexivity | exact Hstill | exact Hsilent].
      cbn [sock with_sock pending calls]. rewrite <- !app_assoc.
      reflexivity.
  - intros r self' Hcall. rewrite Hloop in Hcall.
    destruct (receive_rest_trace code (firstn BUF_SIZE segment)
                (after_first_read self segment rest) eq_refl)
      as (k & last & Hframe & Hlast_open & Hcalls & Hend).
    destruct (receive_rest_outcome code (firstn BUF_SIZE segment)
                (after_first_read self segment rest) eq_refl) as [k' Hk'].
    unfold loop_outcome in Hk'. rewrite Hcall in Hend, Hk'.
    exists k, last.
    split; [| split; [exact Hlast_open | split]].
    + transitivity
        (with_sock (sock last) (after_first_read self segment rest));
        [exact Hframe | reflexivity].
    + rewrite Hcalls. unfold after_first_read; cbn [sock with_sock calls].
      rewrite <- rounds_S, <- !app_assoc. reflexivity.
    + destruct r as [reply|e]; [|exact Hend].
      destruct Hk' as (_ & _ & Hcomplete & _). split; [exact Hcomplete|].
      exact Hend.
Qed.

End Assemble.

(** The round trip of the status command: the 17 bytes of the reply come
    back unchanged, with the status 210, after one wait and one read. *)

Lemma recv_all_single_line_witness :
  length status_reply = 17%nat /\
  _get_status status_reply = Ok 210 /\
  example_recv_all (ready_client [Data status_reply]) =
  (Ok status_reply,
   with_sock
     {| pending := []; closed := false;
        calls := [select_call 5; recv_call BUF_SIZE] |}
     (ready_client [Data status_reply])).
Proof.
  split; [reflexivity | split; [reflexivity |]].
  apply (recv_all_single_line registry_response_complete
           (ready_client [Data status_reply]) (b"210 status text") [] 210);
    try reflexivity.
  apply Nat.leb_le; reflexivity.
Defined.

(** A server that stays silent for 6 units before its greeting. *)
Lemma recv_all_no_data_timeout_witness :
  example_recv_all (ready_client [Delay 6; Data status_reply]) =
  (Raise (TimeoutError None),
   with_sock
     {| pending := [Delay 1; Data status_reply]; closed := false;
        calls := [select_call 5] |}
     (ready_client [Delay 6; Data status_reply])).
Proof.
  apply (recv_all_no_data_timeout registry_response_complete
           (ready_client [Delay 6; Data status_reply]));
    reflexivity.
Defined.

(** The script that stalls: after the first line, two pieces arrive 4
    units after the read before them, 8 units in all, and are read; the
    third is 6 units away, and the wait for it raises the error with the
    code 150 of the first line. *)
Lemma recv_all_continuation_timeout_witness :
  let self := ready_client stalling_script in
  let segment := b"150 1 definitions" ++ CRLF in
  let rest := tl stalling_script in
  (example_recv_all self =
   receive_rest 150 (firstn BUF_SIZE segment)
     (after_first_read self segment rest) /\
   (forall (buf : bytes) (round : DictionaryClient) (piece : bytes)
      (more : list event),
      closed (sock round) = false ->
      _response_complete buf = false ->
      wait_readable 5 (pending (sock round)) = (true, Data piece :: more) ->
      receive_rest 150 buf round =
      receive_rest 150 (buf ++ firstn BUF_SIZE piece)
        (after_first_read round piece more)) /\
   (forall (buf : bytes) (round : DictionaryClient),
      closed (sock round) = false ->
      _response_complete buf = false ->
      fst (wait_readable 5 (pending (sock round))) = false ->
      fst (receive_rest 150 buf round) = Raise (TimeoutError (Some 150))) /\
   (forall (pieces : list (nat * bytes)) (more : list event),
      (length segment <= BUF_SIZE)%nat ->
      rest = trickle_script pieces ++ more ->
      Forall within_bounds pieces ->
      (forall j, (j < length pieces)%nat ->
         _response_complete
           (segment ++ concat (map snd (firstn j pieces))) = false) ->
      (_response_complete (segment ++ concat (map snd pieces)) = true ->
       example_recv_all self =
       (Ok (segment ++ concat (map snd pieces)),
        with_sock
          {| pending := more; closed := false;
             calls := calls (sock self) ++ rounds (S (length pieces)) |}
          self)) /\
      (_response_complete (segment ++ concat (map snd pieces)) = false ->
       fst (wait_readable 5 more) = false ->
       example_recv_all self =
       (Raise (TimeoutError (Some 150)),
        with_sock
          {| pending := snd (wait_readable 5 more); closed := false;
             calls :=
               calls (sock self) ++ rounds (S (length pieces))
               ++ [select_call 5] |}
          self))) /\
   (forall (r : result bytes) (self' : DictionaryClient),
      example_recv_all self = (r, self') ->
      exists k last,
        last = with_sock (sock last) self /\
        closed (sock last) = false /\
        calls (sock last) = calls (sock self) ++ rounds (S k) /\
        match r with
        | Ok reply => _response_complete reply = true /\ self' = last
        | Raise e =>
            e = TimeoutError (Some 150) /\
            fst (wait_readable 5 (pending (sock last))) = false /\
            self' =
            with_sock
              {| pending := snd (wait_readable 5 (pending (sock last)));
                 closed := false;
                 calls := calls (sock last) ++ [select_call 5] |} last
        end)) /\
  example_recv_all self =
  (Raise (TimeoutError (Some 150)),
   with_sock
     {| pending := [Delay 1; Data (b"." ++ CRLF ++ b"250 ok" ++ CRLF)];
        closed := false;
        calls := rounds 3 ++ [select_call 5] |} self).
Proof.
  intros self segment rest.
  pose proof (recv_all_continuation_timeout registry_response_complete
                self segment rest 150 eq_refl eq_refl eq_refl eq_refl)
    as Hclaim.
  split; [exact Hclaim|].
  destruct Hclaim as (_ & _ & _ & Hpieces & _).
  destruct (Hpieces
              [(4%nat, b"151 word db" ++ CRLF); (4%nat, b"text" ++ CRLF)]
              [Delay 6; Data (b"." ++ CRLF ++ b"250 ok" ++ CRLF)])
    as [_ Htimeout].
  - apply Nat.leb_le; reflexivity.
  - reflexivity.
  - repeat (apply List.Forall_cons;
              [split; apply Nat.leb_le; reflexivity|]).
    apply List.Forall_nil.
  - intros [|[|j]] Hj; [reflexivity | reflexivity | cbn in Hj; lia].
  - exact (Htimeout eq_refl eq_refl).
Defined.

Example stalling_script_outcome :
  fst (example_recv_all (ready_client stalling_script)) =
    Raise (TimeoutError (Some 150)) /\
  calls (sock (snd (example_recv_all (ready_client stalling_script)))) =
    rounds 3 ++ [select_call 5].
Proof. vm_compute. split; reflexivity. Qed.

(** The definition of section 8, in two segments: the reply is the two
    segments joined, its length the sum of theirs, and its last line has
    the status 250. *)
Example two_segment_definition :
  let first := b"150 1 definitions" ++ CRLF in
  let second :=
    b"151 word db" ++ CRLF ++ b"text" ++ CRLF ++ b"." ++ CRLF ++ b"250 ok"
    ++ CRLF in
  fst (example_recv_all (ready_client [Data first; Data second])) =
  Ok (first ++ second) /\
  length (first ++ second) = (length first + length second)%nat /\
  ends_with_terminator_line (first ++ second) = true /\
  calls (sock (snd (example_recv_all
                      (ready_client [Data first; Data second])))) =
  rounds 2.
Proof. vm_compute. repeat split; reflexivity. Qed.

(** ** Where the first read decides too early or too late *)

Lemma bytes_eqb_eq (x y : bytes) : bytes_eqb x y = true <-> x = y.
Proof.
  revert y; induction x as [|c x IH]; intros [|d y]; simpl;
    try (split; [discriminate | congruence]); [tauto|].
  rewrite andb_true_iff, IH. split.
  - intros [Hc ->]. apply Byte.byte_dec_bl in Hc. now subst.
  - intros [= -> ->]. split; [now apply Byte.byte_dec_lb | reflexivity].
Qed.

(** A buffer that [_response_complete] accepts ends with CRLF. *)
Lemma response_complete_ends_crlf (buf : bytes) :
  _response_complete buf = true -> slice_last 2 buf = CRLF.
Proof.
  unfold _response_complete. rewrite andb_true_iff.
  intros [_ H]. now apply bytes_eqb_eq.
Qed.

(** So does every reply that the loop returns. *)
Lemma receive_rest_ends_crlf (code : Z) (buf reply : bytes)
  (self self' : DictionaryClient) :
  closed (sock self) = false ->
  receive_rest code buf self = (Ok reply, self') ->
  slice_last 2 reply = CRLF.
Proof.
  intros Hopen Hrun.
  destruct (receive_rest_outcome code buf self Hopen) as [k Hk].
  rewrite Hrun in Hk. destruct Hk as (_ & _ & Hc & _).
  now apply response_complete_ends_crlf.
Qed.

(** *** The anchored test against the test of the code

    Every buffer whose tail is a terminator line is accepted by
    [_response_complete]: the loop never reads past the true end of a
    reply.  The converse fails, see [year_entry_first] below. *)

Lemma split_crlf_step (line : bytes) (c d : byte) (s : bytes) :
  split_crlf line (c :: d :: s) =
  if Byte.eqb c x0d && Byte.eqb d x0a then rev line :: split_crlf [] s
  else split_crlf (c :: line) (d :: s).
Proof. reflexivity. Qed.

Lemma split_crlf_cons (line s : bytes) :
  exists first others, split_crlf line s = first :: others.
Proof.
  remember (length s) as n eqn:Hn. revert line s Hn.
  induction n as [n IH] using lt_wf_ind. intros line [|c [|d s]] Hn;
    [cbn; eauto | cbn; eauto |].
  rewrite split_crlf_step.
  destruct (Byte.eqb c x0d && Byte.eqb d x0a); eauto.
  apply (IH (length (d :: s))); [subst n; simpl; lia | reflexivity].
Qed.

Lemma split_crlf_join (line s : bytes) :
  join_crlf (split_crlf line s) = rev line ++ s.
Proof.
  remember (length s) as n eqn:Hn. revert line s Hn.
  induction n as [n IH] using lt_wf_ind. intros line [|c [|d s]] Hn.
  - cbn. now rewrite List.app_nil_r.
  - reflexivity.
  - rewrite split_crlf_step.
    destruct (Byte.eqb c x0d && Byte.eqb d x0a) eqn:Hcrlf.
    + apply andb_true_iff in Hcrlf as [Hc Hd].
      apply Byte.byte_dec_bl in Hc, Hd. subst c d.
      destruct (split_crlf_cons [] s) as (first & others & Hsplit).
      cbn [join_crlf]. rewrite Hsplit, <- Hsplit.
      rewrite (IH (length s)); [reflexivity | subst n; simpl; lia | reflexivity].
    + rewrite (IH (length (d :: s))); [|subst n; simpl; lia | reflexivity].
      cbn [rev]. now rewrite <- app_assoc.
Qed.

Lemma join_crlf_last_two (lines : list bytes) (last_line : bytes) :
  join_crlf (lines ++ [last_line; []]) =
  match lines with
  | [] => last_line ++ CRLF
  | _ :: _ => join_crlf lines ++ CRLF ++ last_line ++ CRLF
  end.
Proof.
  induction lines as [|line lines IH]; [reflexivity|].
  cbn [app join_crlf]. destruct lines as [|line' lines].
  - cbn. reflexivity.
  - rewrite IH. cbn [app]. now rewrite <- !app_assoc.
Qed.

Lemma startswith_app (s t prefix : bytes) :
  startswith s prefix = true -> startswith (s ++ t) prefix = true.
Proof.
  revert s; induction prefix as [|p prefix IH]; intros [|c s];
    cbn [startswith app]; auto; [discriminate|].
  rewrite !andb_true_iff. intros [Hp Hrest]. auto.
Qed.

Lemma startswith_prepend (s t prefix : bytes) :
  startswith t prefix = true -> startswith (s ++ t) (s ++ prefix) = true.
Proof.
  intros Ht. induction s as [|c s IH]; cbn [startswith app]; [exact Ht|].
  rewrite IH, andb_true_r. now apply Byte.byte_dec_lb.
Qed.

Lemma contains_skip (needle s t : bytes) :
  contains needle t = true -> contains needle (s ++ t) = true.
Proof.
  intros Ht. induction s as [|c s IH]; [exact Ht|].
  cbn [app contains]. rewrite IH. apply orb_true_r.
Qed.

Lemma contains_startswith (needle s : bytes) :
  startswith s needle = true -> contains needle s = true.
Proof. intros H. destruct s; cbn [contains]; now rewrite H. Qed.

Lemma slice_last_crlf (s : bytes) : slice_last 2 (s ++ CRLF) = CRLF.
Proof.
  unfold slice_last. rewrite length_app. cbn [length CRLF].
  replace (length s + 2 - 2)%nat with (length s + 0)%nat by lia.
  rewrite skipn_app, Nat.add_0_r, skipn_all.
  replace (length s - length s)%nat with 0%nat by lia. reflexivity.
Qed.

Lemma terminator_line_complete (s : bytes) :
  ends_with_terminator_line s = true -> _response_complete s = true.
Proof.
  unfold ends_with_terminator_line.
  destruct (rev (split_crlf [] s)) as [|[|] [|last_line lines]] eqn:Hrev;
    try discriminate.
  intros Hlast. apply (f_equal (@rev bytes)) in Hrev.
  rewrite rev_involutive in Hrev. cbn [rev] in Hrev.
  rewrite <- app_assoc in Hrev. cbn [app] in Hrev.
  pose proof (split_crlf_join [] s) as Hjoin. cbn [rev app] in Hjoin.
  rewrite Hrev, join_crlf_last_two in Hjoin. unfold _response_complete.
  destruct (rev lines) as [|line lines'].
  - subst s. rewrite slice_last_crlf, (startswith_app _ _ _ Hlast).
    reflexivity.
  - subst s. rewrite !app_assoc, slice_last_crlf, <- !app_assoc.
    rewrite (contains_skip _ (join_crlf (line :: lines'))
               (CRLF ++ last_line ++ CRLF)).
    + now rewrite orb_true_r.
    + apply contains_startswith, startswith_prepend.
      now apply startswith_app.
Qed.

(** C2: the bytes of the first read are returned as the reply as soon as
    their status code is classified as complete, whether or not they end
    with CRLF: of the greeting above, [_recv_all] returns the first nine
    bytes and leaves the rest unread. *)
Theorem recv_all_returns_unterminated_line (response_complete : Z -> bool) :
  response_complete 220 = true ->
  _recv_all response_complete (ready_client split_greeting_script) =
  (Ok (b"220 dictd"),
   with_sock
     {| pending := [Data (b" ready" ++ CRLF)]; closed := false;
        calls := [select_call 5; recv_call BUF_SIZE] |}
     (ready_client split_greeting_script)) /\
  bytes_eqb (slice_last 2 (b"220 dictd")) CRLF = false.
Proof.
  intros Hterminal. split; [|reflexivity].
  rewrite (recv_all_first_read response_complete
             (ready_client split_greeting_script) (b"220 dictd")
             [Data (b" ready" ++ CRLF)] eq_refl eq_refl).
  change (_get_status (firstn BUF_SIZE (b"220 dictd"))) with (@Ok Z 220).
  cbv beta iota. rewrite Hterminal. reflexivity.
Qed.

Lemma recv_all_returns_unterminated_line_witness :
  example_recv_all (ready_client split_greeting_script) =
  (Ok (b"220 dictd"),
   with_sock
     {| pending := [Data (b" ready" ++ CRLF)]; closed := false;
        calls := [select_call 5; recv_call BUF_SIZE] |}
     (ready_client split_greeting_script)) /\
  bytes_eqb (slice_last 2 (b"220 dictd")) CRLF = false.
Proof.
  apply (recv_all_returns_unterminated_line registry_response_complete).
  reflexivity.
Defined.

(** C1: [_response_complete] accepts a buffer that holds a line starting
    with 250 anywhere and ends with CRLF.  On the script above the loop
    ends after the first segment, whose last line is text, and the
    terminator line stays unread on the socket. *)
Theorem recv_all_stops_at_body_line (response_complete : Z -> bool) :
  response_complete 150 = false ->
  _recv_all response_complete (ready_client year_entry_script) =
  (Ok year_entry_first,
   with_sock
     {| pending := [Data year_entry_second]; closed := false;
        calls := [select_call 5; recv_call BUF_SIZE] |}
     (ready_client year_entry_script)) /\
  _response_complete year_entry_first = true /\
  ends_with_terminator_line year_entry_first = false /\
  ends_with_terminator_line (year_entry_first ++ year_entry_second) = true.
Proof.
  intros Hpreliminary. split; [|repeat split; reflexivity].
  rewrite (recv_all_first_read response_complete
             (ready_client year_entry_script) year_entry_first
             [Data year_entry_second] eq_refl eq_refl).
  change (_get_status (firstn BUF_SIZE year_entry_first)) with (@Ok Z 150).
  cbv beta iota. rewrite Hpreliminary, receive_rest_eq.
  change (_response_complete (firstn BUF_SIZE year_entry_first)) with true.
  reflexivity.
Qed.

Lemma recv_all_stops_at_body_line_witness :
  example_recv_all (ready_client year_entry_script) =
  (Ok year_entry_first,
   with_sock
     {| pending := [Data year_entry_second]; closed := false;
        calls := [select_call 5; recv_call BUF_SIZE] |}
     (ready_client year_entry_script)) /\
  _response_complete year_entry_first = true /\
  ends_with_terminator_line year_entry_first = false /\
  ends_with_terminator_line (year_entry_first ++ year_entry_second) = true.
Proof.
  apply (recv_all_stops_at_body_line registry_response_complete).
  reflexivity.
Defined.

(** ** Parsing the status *)

Lemma digit_value_facts (c : byte) (d : Z) :
  digit_value c = Some d ->
  is_space c = false /\ Byte.eqb c x2b = false /\ Byte.eqb c x2d = false
  /\ 0 <= d <= 9.
Proof.
  destruct c; vm_compute; intros [= <-]; repeat split; discriminate.
Qed.

(** Three digits are a literal of [int], with their decimal value. *)
Lemma three_digit_code_int (prefix : bytes) (code : Z) :
  three_digit_code prefix = Some code -> int prefix = Some code.
Proof.
  destruct prefix as [|c1 [|c2 [|c3 [|c4 prefix]]]]; try discriminate.
  unfold three_digit_code.
  destruct (digit_value c1) as [d1|] eqn:H1; [|discriminate].
  destruct (digit_value c2) as [d2|] eqn:H2; [|discriminate].
  destruct (digit_value c3) as [d3|] eqn:H3; [|discriminate].
  intros [= <-].
  destruct (digit_value_facts _ _ H1) as (Hspace & Hplus & Hminus & _).
  unfold int. cbn [skip_space]. rewrite Hspace, Hplus, Hminus, H1.
  cbn [scan_digits]. rewrite H1, H2, H3. cbn [skip_space]. f_equal. lia.
Qed.

Section StatusParse.

Variable response_complete : Z -> bool.

(** C4, as the code has it: the status is [int] of the first three bytes
    of the first read (of all of them when there are fewer), parsed once.
    When [int] rejects them, [_recv_all] raises its [ValueError] straight
    after that read and returns no buffer; when [int] accepts them, their
    value is the status, by which the reply is judged; three digits are
    always accepted, with their decimal value. *)
Theorem recv_all_status_parse (self : DictionaryClient) (segment : bytes)
  (rest : list event) :
  closed (sock self) = false ->
  wait_readable 5 (pending (sock self)) = (true, Data segment :: rest) ->
  (int (slice_to 3 (firstn BUF_SIZE segment)) = None ->
   _recv_all response_complete self =
   (Raise (ValueError (slice_to 3 (firstn BUF_SIZE segment))),
    after_first_read self segment rest)) /\
  (forall code,
     int (slice_to 3 (firstn BUF_SIZE segment)) = Some code ->
     _recv_all response_complete self =
     if response_complete code
     then (Ok (firstn BUF_SIZE segment), after_first_read self segment rest)
     else
       receive_rest code (firstn BUF_SIZE segment)
         (after_first_read self segment rest)) /\
  (forall code,
     three_digit_code (slice_to 3 (firstn BUF_SIZE segment)) = Some code ->
     int (slice_to 3 (firstn BUF_SIZE segment)) = Some code).
Proof.
  intros Hopen Hwait.
  pose proof (recv_all_first_read response_complete self _ _ Hopen Hwait)
    as Hrun.
  unfold _get_status in Hrun. repeat split.
  - intros Hint. rewrite Hint in Hrun. exact Hrun.
  - intros code Hint. rewrite Hint in Hrun. exact Hrun.
  - intros code. apply three_digit_code_int.
Qed.

End StatusParse.

Lemma recv_all_status_parse_witness :
  example_recv_all (ready_client [Data (b"hello" ++ CRLF)]) =
  (Raise (ValueError (b"hel")),
   after_first_read (ready_client [Data (b"hello" ++ CRLF)])
     (b"hello" ++ CRLF) []).
Proof.
  apply (recv_all_status_parse registry_response_complete
           (ready_client [Data (b"hello" ++ CRLF)]) (b"hello" ++ CRLF) []);
    reflexivity.
Defined.

(** C4 as stated fails.  A first line that opens with a space and two
    digits is no three-digit code, yet it is read as the status 22: the
    reply is returned when a line starting with 250 follows, and
    otherwise the failure is the timeout that quotes the status 22.  And
    a greeting whose first read holds only its first two bytes is judged
    by the status 22 too, although the rest of the line does arrive. *)
Lemma recv_all_malformed_prefix_counterexample :
  three_digit_code (slice_to 3 (b" 22 hello" ++ CRLF)) = None /\
  fst (example_recv_all
         (ready_client [Data (b" 22 hello" ++ CRLF ++ b"250 ok" ++ CRLF)])) =
  Ok (b" 22 hello" ++ CRLF ++ b"250 ok" ++ CRLF) /\
  fst (example_recv_all (ready_client [Data (b" 22 hello" ++ CRLF)])) =
  Raise (TimeoutError (Some 22)) /\
  three_digit_code (slice_to 3 (b"22")) = None /\
  example_recv_all
    (ready_client [Data (b"22"); Data (b"0 dictd ready" ++ CRLF)]) =
  (Raise (TimeoutError (Some 22)),
   with_sock
     {| pending := []; closed := false;
        calls := rounds 2 ++ [select_call 5] |}
     (ready_client [Data (b"22"); Data (b"0 dictd ready" ++ CRLF)])).
Proof. vm_compute. repeat split; reflexivity. Qed.

(** ** What a call may change

    Apart from the descriptors, the methods change nothing of the object
    but its socket. *)

Lemma on_sock_frame {A} (m : M socket A) : touches_only_sock (on_sock m).
Proof.
  intros self. unfold on_sock. destruct (m (sock self)); reflexivity.
Qed.

Lemma ret_frame {A} (a : A) : touches_only_sock (ret a).
Proof. intros self; simpl; now rewrite with_sock_same. Qed.

Lemma raise_frame {A} (e : exn) : touches_only_sock (@raise _ A e).
Proof. intros self; simpl; now rewrite with_sock_same. Qed.

Lemma lift_frame {A} (r : result A) : touches_only_sock (lift r).
Proof. intros self; simpl; now rewrite with_sock_same. Qed.

Lemma bind_frame {A B} (m : M DictionaryClient A)
  (k : A -> M DictionaryClient B) :
  touches_only_sock m -> (forall a, touches_only_sock (k a)) ->
  touches_only_sock (bind m k).
Proof.
  intros Hm Hk self. unfold bind. specialize (Hm self).
  destruct (m self) as [[a|e] self1]; simpl in *; [|exact Hm].
  rewrite (Hk a self1). rewrite Hm at 2. reflexivity.
Qed.

Lemma receive_rest_frame (code : Z) (buf : bytes) :
  touches_only_sock (receive_rest code buf).
Proof.
  intros self. remember (weight (pending (sock self))) as n eqn:Hn.
  revert buf self Hn. induction n as [n IH] using lt_wf_ind.
  intros buf self Hn. rewrite receive_rest_eq.
  destruct (_response_complete buf); [simpl; now rewrite with_sock_same|].
  pose proof (on_sock_frame (select 5) self) as Hselect.
  destruct (on_sock (select 5) self) as [[[|]|e] self1] eqn:Hs;
    simpl in Hselect; try exact Hselect.
  pose proof (on_sock_frame (recv BUF_SIZE) self1) as Hrecv.
  destruct (on_sock (recv BUF_SIZE) self1) as [[chunk|e] self2] eqn:Hr;
    simpl in Hrecv.
  - apply on_sock_select_weight in Hs.
    apply on_sock_recv_weight in Hr; [|unfold BUF_SIZE; lia].
    rewrite (IH (weight (pending (sock self2))) ltac:(lia)
               (buf ++ chunk) self2 eq_refl).
    rewrite Hrecv at 2. rewrite Hselect. reflexivity.
  - simpl. rewrite Hrecv, Hselect. reflexivity.
Qed.

Lemma recv_all_frame (response_complete : Z -> bool) :
  touches_only_sock (_recv_all response_complete).
Proof.
  unfold _recv_all. apply bind_frame; [apply on_sock_frame|].
  intros ready. destruct (negb ready); [apply raise_frame|].
  apply bind_frame; [apply on_sock_frame|]. intros chunk.
  apply bind_frame; [apply lift_frame|]. intros code.
  destruct (response_complete code);
    [apply ret_frame | apply receive_rest_frame].
Qed.

Lemma rounds_read_calls (k : nat) : Forall read_call (rounds k).
Proof.
  induction k as [|k IH]; [constructor|].
  rewrite <- rounds_S. repeat constructor; assumption.
Qed.

(** On an open socket [_recv_all] leaves the socket open and adds only
    waits and reads to its calls. *)
Lemma recv_all_open (response_complete : Z -> bool)
  (self : DictionaryClient) :
  closed (sock self) = false ->
  closed (sock (snd (_recv_all response_complete self))) = false /\
  exists added,
    calls (sock (snd (_recv_all response_complete self))) =
    calls (sock self) ++ added /\ Forall read_call added.
Proof.
  intros Hopen.
  destruct (wait_readable 5 (pending (sock self))) as [[|] evs] eqn:Hwait.
  - destruct (wait_readable_ready _ _ _ Hwait) as (segment & rest & ->).
    rewrite (recv_all_first_read response_complete self _ _ Hopen Hwait).
    assert (Hfirst :
      closed (sock (after_first_read self segment rest)) = false /\
      exists added,
        calls (sock (after_first_read self segment rest)) =
        calls (sock self) ++ added /\ Forall read_call added).
    { split; [reflexivity|].
      exists [select_call 5; recv_call BUF_SIZE].
      split; [reflexivity | repeat constructor]. }
    destruct (_get_status (firstn BUF_SIZE segment)) as [code|e];
      [|exact Hfirst].
    destruct (response_complete code); [exact Hfirst|].
    destruct (receive_rest_outcome code (firstn BUF_SIZE segment)
                (after_first_read self segment rest) eq_refl) as [k Hk].
    unfold loop_outcome in Hk.
    destruct (receive_rest code (firstn BUF_SIZE segment)
                (after_first_read self segment rest)) as [r self'].
    destruct Hk as (_ & Hclosed & Hr). split; [exact Hclosed|].
    cbn [snd].
    destruct r as [reply|e]; [destruct Hr as (_ & _ & Hcalls)
                             | destruct Hr as (_ & Hcalls)];
      rewrite Hcalls; unfold after_first_read; cbn [sock with_sock calls];
      rewrite <- app_assoc; eexists; (split; [reflexivity|]).
    + apply Forall_app; split; [repeat constructor | apply rounds_read_calls].
    + apply Forall_app; split; [repeat constructor|].
      apply Forall_app; split; [apply rounds_read_calls | repeat constructor].
  - rewrite recv_all_eq, (on_sock_select_open 5 self Hopen), Hwait.
    split; [reflexivity|]. exists [select_call 5].
    split; [reflexivity | repeat constructor].
Qed.

(** On an open socket [_recv_all] returns: it gives a reply or raises one
    of its timeouts or the [ValueError] of [int], and never waits in a
    [recv] for data that does not come. *)
Lemma recv_all_raises (response_complete : Z -> bool)
  (self : DictionaryClient) (e : exn) :
  closed (sock self) = false ->
  fst (_recv_all response_complete self) = Raise e ->
  e = TimeoutError None
  \/ (exists literal, e = ValueError literal)
  \/ (exists code, e = TimeoutError (Some code)).
Proof.
  intros Hopen.
  destruct (wait_readable 5 (pending (sock self))) as [[|] evs] eqn:Hwait.
  - destruct (wait_readable_ready _ _ _ Hwait) as (segment & rest & ->).
    rewrite (recv_all_first_read response_complete self _ _ Hopen Hwait).
    unfold _get_status.
    destruct (int (slice_to 3 (firstn BUF_SIZE segment))) as [code|].
    + destruct (response_complete code); [discriminate|].
      destruct (receive_rest_outcome code (firstn BUF_SIZE segment)
                  (after_first_read self segment rest) eq_refl) as [k Hk].
      unfold loop_outcome in Hk.
      destruct (receive_rest code (firstn BUF_SIZE segment)
                  (after_first_read self segment rest)) as [[reply|e'] self'];
        [discriminate|].
      destruct Hk as (_ & _ & -> & _). intros [= <-]. eauto.
    + intros [= <-]. eauto.
  - rewrite recv_all_eq, (on_sock_select_open 5 self Hopen), Hwait.
    intros [= <-]. auto.
Qed.

(** ** Sending and closing *)

Lemma on_sock_connect_open (host : string) (port : Z)
  (self : DictionaryClient) :
  closed (sock self) = false ->
  on_sock (connect host port) self =
  (Ok tt,
   with_sock
     {| pending := pending (sock self); closed := false;
        calls := calls (sock self) ++ [connect_call host port] |} self).
Proof.
  intros Hopen. unfold on_sock, connect, logged; simpl. now rewrite Hopen.
Qed.

Lemma on_sock_sendall_open (data : bytes) (self : DictionaryClient) :
  closed (sock self) = false ->
  on_sock (sendall data) self =
  (Ok tt,
   with_sock
     {| pending := pending (sock self); closed := false;
        calls := calls (sock self) ++ [sendall_call data] |} self).
Proof.
  intros Hopen. unfold on_sock, sendall, logged; simpl. now rewrite Hopen.
Qed.

Lemma on_sock_sendall_closed (data : bytes) (self : DictionaryClient) :
  closed (sock self) = true ->
  fst (on_sock (sendall data) self) = Raise ClosedSocketError.
Proof.
  intros Hclosed. unfold on_sock, sendall, logged; simpl. now rewrite Hclosed.
Qed.

Lemma bind_eq {St A B} (m : M St A) (k : A -> M St B) (st : St) :
  bind m k st =
  match m st with
  | (Ok a, st') => k a st'
  | (Raise e, st') => (Raise e, st')
  end.
Proof. reflexivity. Qed.

(** ** The handshake *)

Section Handshake.

Variable response_complete : Z -> bool.
Variable client_ident_command : string -> bytes.
Variables HandshakeResponse PreliminaryResponse
  : bytes -> result (Response string).

Lemma send_client_ident_eq (self : DictionaryClient) :
  closed (sock self) = false ->
  _send_client_ident response_complete client_ident_command
    PreliminaryResponse self =
  match _recv_all response_complete (ident_sent client_ident_command self) with
  | (Raise e, self') => (Raise e, self')
  | (Ok ack, self') =>
      match PreliminaryResponse ack with
      | Raise e => (Raise e, self')
      | Ok acknowledgement =>
          if status_code acknowledgement =? 250 then (Ok tt, self')
          else (Raise (Exception (status_code acknowledgement)), self')
      end
  end.
Proof.
  intros Hopen. unfold _send_client_ident, ident_sent.
  rewrite bind_eq, (on_sock_sendall_open _ self Hopen). cbn [snd].
  rewrite bind_eq.
  destruct (_recv_all response_complete _) as [[ack|e] self']; [|reflexivity].
  rewrite bind_eq. unfold lift.
  destruct (PreliminaryResponse ack) as [acknowledgement|e]; [|reflexivity].
  unfold OK. destruct (status_code acknowledgement =? 250); reflexivity.
Qed.

Lemma init_eq (user hostname now host : string) (port : Z)
  (new_sock : socket) :
  closed new_sock = false ->
  __init__ response_complete client_ident_command HandshakeResponse
    PreliminaryResponse user hostname now host port new_sock =
  match
    _recv_all response_complete
      (snd (on_sock (connect host port)
              (new_object user hostname now new_sock)))
  with
  | (Raise e, self2) => (Raise e, self2)
  | (Ok greeting, self2) =>
      match HandshakeResponse greeting with
      | Raise e => (Raise e, self2)
      | Ok hello =>
          if status_code hello =? 220
          then
            match _recv_all response_complete (ident_sent client_ident_command self2) with
            | (Raise e, self4) => (Raise e, self4)
            | (Ok ack, self4) =>
                match PreliminaryResponse ack with
                | Raise e => (Raise e, self4)
                | Ok acknowledgement =>
                    if status_code acknowledgement =? 250
                    then (Ok tt, with_server_info (content hello) self4)
                    else
                      (Raise (Exception (status_code acknowledgement)),
                       self4)
                end
            end
          else (Raise (Exception (status_code hello)), self2)
      end
  end.
Proof.
  intros Hopen. unfold __init__, _connect. set (self0 := new_object _ _ _ _).
  assert (Hopen0 : closed (sock self0) = false) by exact Hopen.
  rewrite !bind_eq, (on_sock_connect_open host port self0 Hopen0). cbn [snd].
  set (connected := with_sock _ self0). rewrite !bind_eq.
  pose proof (recv_all_open response_complete connected eq_refl) as [Hopen2 _].
  destruct (_recv_all response_complete connected) as [[greeting|e] self2];
    [|reflexivity].
  cbn [snd] in Hopen2. rewrite !bind_eq. unfold lift.
  destruct (HandshakeResponse greeting) as [hello|e]; [|reflexivity].
  unfold CONNECTION_ACCEPTED.
  destruct (status_code hello =? 220); cbn [negb]; [|reflexivity].
  rewrite !bind_eq, (send_client_ident_eq self2 Hopen2).
  destruct (_recv_all response_complete (ident_sent client_ident_command self2))
    as [[ack|e] self4]; [|reflexivity].
  destruct (PreliminaryResponse ack) as [acknowledgement|e]; [|reflexivity].
  destruct (status_code acknowledgement =? 250); reflexivity.
Qed.

(** C7: on a socket that is open, the constructor returns a client
    exactly when the reply read after connecting decodes to the status
    220 and the reply read after sending the identification decodes to
    the status 250.  A greeting with another status makes [__init__]
    raise the exception that carries this status, in the state reached
    when the greeting was read, so before anything is sent; an
    acknowledgement with another status makes it raise the exception that
    carries that status; in both cases the caller gets no client. *)
Theorem handshake_ready_iff (user hostname now host : string) (port : Z)
  (new_sock : socket) :
  closed new_sock = false ->
  let greeting_read :=
    _recv_all response_complete
      (snd (on_sock (connect host port)
              (new_object user hostname now new_sock))) in
  let init :=
    __init__ response_complete client_ident_command HandshakeResponse
      PreliminaryResponse user hostname now host port new_sock in
  let construct :=
    new_client response_complete client_ident_command HandshakeResponse
      PreliminaryResponse user hostname now host port new_sock in
  (forall client,
     construct = Ok client <->
     exists greeting self2 hello ack self4 acknowledgement,
       greeting_read = (Ok greeting, self2) /\
       HandshakeResponse greeting = Ok hello /\
       status_code hello = 220 /\
       _recv_all response_complete (ident_sent client_ident_command self2) = (Ok ack, self4) /\
       PreliminaryResponse ack = Ok acknowledgement /\
       status_code acknowledgement = 250 /\
       client = with_server_info (content hello) self4) /\
  (forall greeting self2 hello,
     greeting_read = (Ok greeting, self2) ->
     HandshakeResponse greeting = Ok hello ->
     status_code hello <> 220 ->
     init = (Raise (Exception (status_code hello)), self2) /\
     construct = Raise (Exception (status_code hello))) /\
  (forall greeting self2 hello ack self4 acknowledgement,
     greeting_read = (Ok greeting, self2) ->
     HandshakeResponse greeting = Ok hello ->
     status_code hello = 220 ->
     _recv_all response_complete (ident_sent client_ident_command self2) = (Ok ack, self4) ->
     PreliminaryResponse ack = Ok acknowledgement ->
     status_code acknowledgement <> 250 ->
     init = (Raise (Exception (status_code acknowledgement)), self4) /\
     construct = Raise (Exception (status_code acknowledgement))).
Proof.
  intros Hopen greeting_read init construct.
  pose proof (init_eq user hostname now host port new_sock Hopen) as Hinit.
  fold init greeting_read in Hinit.
  assert (Hconstruct :
    construct = match init with
                | (Ok _, self) => Ok self
                | (Raise e, _) => Raise e
                end) by reflexivity.
  clearbody init construct greeting_read. split; [|split].
  - intros client. split.
    + intros Hready. rewrite Hconstruct, Hinit in Hready.
      destruct greeting_read as [[greeting|e] self2]; [|discriminate].
      destruct (HandshakeResponse greeting) as [hello|e] eqn:Hgreeting;
        [|discriminate].
      destruct (status_code hello =? 220) eqn:Hhello; [|discriminate].
      destruct (_recv_all response_complete (ident_sent client_ident_command self2))
        as [[ack|e] self4] eqn:Hread; [|discriminate].
      destruct (PreliminaryResponse ack) as [acknowledgement|e] eqn:Hack;
        [|discriminate].
      destruct (status_code acknowledgement =? 250) eqn:Hcode;
        [|discriminate].
      injection Hready as <-.
      exists greeting, self2, hello, ack, self4, acknowledgement.
      apply Z.eqb_eq in Hhello, Hcode. repeat split; auto.
    + intros (greeting & self2 & hello & ack & self4 & acknowledgement
              & Hgreeting & Hhello & Hcode & Hack & Hdecoded & Hcode' & ->).
      rewrite Hconstruct, Hinit, Hgreeting, Hhello, Hcode, Hack, Hdecoded,
        Hcode'.
      reflexivity.
  - intros greeting self2 hello Hgreeting Hhello Hcode.
    apply Z.eqb_neq in Hcode.
    rewrite Hconstruct, Hinit, Hgreeting, Hhello, Hcode. split; reflexivity.
  - intros greeting self2 hello ack self4 acknowledgement Hgreeting Hhello
      Hcode Hack Hdecoded Hcode'.
    apply Z.eqb_neq in Hcode'.
    rewrite Hconstruct, Hinit, Hgreeting, Hhello, Hcode, Hack, Hdecoded,
      Hcode'.
    split; reflexivity.
Qed.

End Handshake.

(** The handshake of section 8: a greeting 220 and an acknowledgement 250
    give a client; a greeting 420 gives none. *)
Example handshake_accepted :
  exists client,
    example_new_client
      [Data (b"220 dictd ready" ++ CRLF); Data (b"250 ok" ++ CRLF)]
    = Ok client /\
    server_info client
    = Some (string_of_list_byte (b"220 dictd ready" ++ CRLF)).
Proof. eexists. split; vm_compute; reflexivity. Qed.

Lemma handshake_ready_iff_witness :
  example_new_client [Data (b"420 busy" ++ CRLF); Data (b"250 ok" ++ CRLF)]
  = Raise (Exception 420).
Proof.
  refine (proj2
    (proj1 (proj2
       (handshake_ready_iff registry_response_complete
          example_client_ident_command status_line_response
          status_line_response "user" "host" "2024-05-01T12:00:00"
          "localhost" DEFAULT_PORT
          (scripted_socket
             [Data (b"420 busy" ++ CRLF); Data (b"250 ok" ++ CRLF)])
          eq_refl))
       (b"420 busy" ++ CRLF) _
       {| status_code := 420;
          content := string_of_list_byte (b"420 busy" ++ CRLF) |}
       _ _ _)).
  - vm_compute. reflexivity.
  - reflexivity.
  - discriminate.
Defined.

(** ** [disconnect] *)

Lemma get_response_frame {C} (response_complete : Z -> bool)
  (command : bytes) (response_class : bytes -> result (Response C)) :
  touches_only_sock (_get_response response_complete command response_class).
Proof.
  unfold _get_response. apply bind_frame; [apply on_sock_frame|]. intros _.
  apply bind_frame; [apply recv_all_frame|]. intros reply. apply lift_frame.
Qed.

(** On a closed socket a request fails before anything is read. *)
Lemma get_response_closed {C} (response_complete : Z -> bool)
  (command : bytes) (response_class : bytes -> result (Response C))
  (self : DictionaryClient) :
  closed (sock self) = true ->
  fst (_get_response response_complete command response_class self) =
  Raise ClosedSocketError.
Proof.
  intros Hclosed. unfold _get_response. rewrite bind_eq.
  pose proof (on_sock_sendall_closed command self Hclosed) as Hsend.
  destruct (on_sock (sendall command) self) as [r self1].
  simpl in Hsend. now rewrite Hsend.
Qed.

Section Disconnect.

Variable response_complete : Z -> bool.
Variable disconnect_command : bytes.

Lemma disconnect_frame :
  touches_only_sock (disconnect response_complete disconnect_command).
Proof.
  unfold disconnect. apply bind_frame; [apply on_sock_frame|]. intros _.
  apply bind_frame; [apply recv_all_frame|]. intros reply.
  apply bind_frame; [apply lift_frame|]. intros code.
  destruct (negb (code =? CLOSING_CONNECTION)); [|apply on_sock_frame].
  apply bind_frame; [apply lift_frame|]. intros text. apply raise_frame.
Qed.

Lemma disconnect_eq (self : DictionaryClient) :
  closed (sock self) = false ->
  disconnect response_complete disconnect_command self =
  match
    _recv_all response_complete
      (snd (on_sock (sendall disconnect_command) self))
  with
  | (Raise e, self2) => (Raise e, self2)
  | (Ok reply, self2) =>
      match _get_status reply with
      | Raise e => (Raise e, self2)
      | Ok code =>
          if code =? 221 then on_sock close self2
          else
            match decode reply with
            | Raise e => (Raise e, self2)
            | Ok text => (Raise (ConnectionError text), self2)
            end
      end
  end.
Proof.
  intros Hopen. unfold disconnect.
  rewrite !bind_eq, (on_sock_sendall_open _ self Hopen). cbn [snd].
  rewrite !bind_eq.
  destruct (_recv_all response_complete _) as [[reply|e] self2];
    [|reflexivity].
  rewrite !bind_eq. unfold lift.
  destruct (_get_status reply) as [code|e]; [|reflexivity].
  unfold CLOSING_CONNECTION.
  destruct (code =? 221); cbn [negb]; [reflexivity|].
  rewrite bind_eq. destruct (decode reply); reflexivity.
Qed.

(** C8, as the code has it: when the reply to the quit command carries
    the status 221, [disconnect] closes the socket and returns, and every
    later request on this client fails at the closed socket; when the
    reply carries another status and decodes as UTF-8, [disconnect]
    raises the [ConnectionError] that quotes the reply, without closing
    the socket, which stays open. *)
Theorem disconnect_outcome (self self2 : DictionaryClient) (reply : bytes)
  (code : Z) :
  closed (sock self) = false ->
  _recv_all response_complete
    (snd (on_sock (sendall disconnect_command) self)) = (Ok reply, self2) ->
  _get_status reply = Ok code ->
  (code = 221 ->
   disconnect response_complete disconnect_command self =
   (Ok tt,
    with_sock
      {| pending := pending (sock self2); closed := true;
         calls := calls (sock self2) ++ [close_call] |} self2) /\
   forall (command : bytes)
     (response_class : bytes -> result (Response string)),
     fst (_get_response response_complete command response_class
            (snd (disconnect response_complete disconnect_command self))) =
     Raise ClosedSocketError) /\
  (code <> 221 ->
   utf8_valid reply = true ->
   disconnect response_complete disconnect_command self =
   (Raise (ConnectionError reply), self2) /\
   closed (sock self2) = false).
Proof.
  intros Hopen Hread Hstatus.
  pose proof (disconnect_eq self Hopen) as Hrun.
  rewrite Hread, Hstatus in Hrun. split.
  - intros ->. cbn [Z.eqb Pos.eqb] in Hrun. rewrite Hrun.
    split; [reflexivity|]. intros command response_class.
    now apply get_response_closed.
  - intros Hcode Hvalid. apply Z.eqb_neq in Hcode.
    unfold decode in Hrun. rewrite Hcode, Hvalid in Hrun. split; [exact Hrun|].
    assert (Hsent :
      closed (sock (snd (on_sock (sendall disconnect_command) self))) = false)
      by now rewrite (on_sock_sendall_open _ self Hopen).
    destruct (recv_all_open response_complete _ Hsent) as [Hkeep _].
    now rewrite Hread in Hkeep.
Qed.

End Disconnect.

Lemma disconnect_outcome_witness :
  example_disconnect (ready_client [Data (b"221 bye" ++ CRLF)]) =
  (Ok tt,
   with_sock
     {| pending := []; closed := true;
        calls :=
          [sendall_call example_disconnect_command; select_call 5;
           recv_call BUF_SIZE; close_call] |}
     (ready_client [Data (b"221 bye" ++ CRLF)])).
Proof.
  refine (proj1
    (proj1
       (disconnect_outcome registry_response_complete
          example_disconnect_command
          (ready_client [Data (b"221 bye" ++ CRLF)])
          (with_sock
             {| pending := []; closed := false;
                calls :=
                  [sendall_call example_disconnect_command; select_call 5;
                   recv_call BUF_SIZE] |}
             (ready_client [Data (b"221 bye" ++ CRLF)]))
          (b"221 bye" ++ CRLF) 221 eq_refl _ eq_refl)
       eq_refl)).
  vm_compute. reflexivity.
Defined.

(** C8 as stated fails: after the refused quit the socket is not closed,
    and the next request on the same client is sent and answered. *)
Lemma disconnect_keeps_socket_counterexample :
  fst (example_disconnect (ready_client refused_quit_script)) =
  Raise (ConnectionError (b"500 unknown command" ++ CRLF)) /\
  closed (sock (snd (example_disconnect (ready_client refused_quit_script))))
  = false /\
  fst (example_get_server_status
         (snd (example_disconnect (ready_client refused_quit_script)))) =
  Ok {| status_code := 210; content := string_of_list_byte status_reply |}.
Proof. vm_compute. repeat split; reflexivity. Qed.

(** ** The lazy attributes *)

Section ServerProperties.

Variable response_complete : Z -> bool.
Variables show_strategies_command show_databases_command : bytes.
Variable ServerPropertiesResponse : bytes -> result (Response (list string)).

Abbreviation fetch := (fetch_once response_complete ServerPropertiesResponse).

(** An access that finds a non-empty value on the object returns it and
    does nothing else. *)
Lemma fetch_once_cached (descriptor : ReadOnlyDescriptor) (command : bytes)
  (obj : DictionaryClient) (value : list string) :
  getattr (private_name descriptor) obj = Some value ->
  value <> [] ->
  fetch descriptor command obj = (Ok value, obj).
Proof.
  intros Hattr Hvalue. unfold fetch_once. rewrite bind_eq, Hattr.
  destruct value as [|name value]; [congruence|]. cbn [truthy negb ret].
  now rewrite Hattr.
Qed.

(** An access that finds nothing, or an empty value, asks the server and
    keeps the decoded content on the object. *)
Lemma fetch_once_first (descriptor : ReadOnlyDescriptor) (command : bytes)
  (obj obj2 : DictionaryClient) (reply : bytes)
  (response : Response (list string)) :
  truthy (getattr (private_name descriptor) obj) = false ->
  closed (sock obj) = false ->
  _recv_all response_complete (snd (on_sock (sendall command) obj)) =
  (Ok reply, obj2) ->
  ServerPropertiesResponse reply = Ok response ->
  fetch descriptor command obj =
  (Ok (content response),
   snd (setattr (private_name descriptor) (content response) obj2)).
Proof.
  intros Hempty Hopen Hread Hdecoded. unfold fetch_once.
  rewrite bind_eq, Hempty. cbn [negb].
  rewrite !bind_eq, (on_sock_sendall_open _ obj Hopen).
  rewrite (on_sock_sendall_open _ obj Hopen) in Hread. cbn [snd] in *.
  rewrite !bind_eq, Hread. rewrite !bind_eq. unfold lift. rewrite Hdecoded.
  unfold setattr, getattr. cbn [private snd].
  now rewrite lookup_insert_eq.
Qed.

(** An access leaves the values kept under other names as they are. *)
Lemma fetch_once_other (descriptor : ReadOnlyDescriptor) (command : bytes)
  (obj : DictionaryClient) (name : string) :
  private_name descriptor <> name ->
  getattr name (snd (fetch descriptor command obj)) = getattr name obj.
Proof.
  intros Hname. unfold fetch_once. rewrite bind_eq.
  assert (Hfinal : forall (r : result unit) (obj1 : DictionaryClient),
    getattr name obj1 = getattr name obj ->
    getattr name
      (snd (match r with
            | Ok _ =>
                match getattr (private_name descriptor) obj1 with
                | Some value => (Ok value, obj1)
                | None =>
                    (Raise (AttributeError (private_name descriptor)), obj1)
                end
            | Raise e => (Raise e, obj1)
            end)) = getattr name obj).
  { intros [[]|e] obj1 Hsame; [|exact Hsame].
    destruct (getattr (private_name descriptor) obj1); exact Hsame. }
  destruct (negb (truthy (getattr (private_name descriptor) obj))).
  2:{ exact (Hfinal (Ok tt) obj eq_refl). }
  set (request :=
    bind (on_sock (sendall command))
      (fun _ =>
         bind (_recv_all response_complete)
           (fun reply =>
              bind (lift (ServerPropertiesResponse reply))
                (fun response =>
                   setattr (private_name descriptor) (content response))))).
  assert (Hrequest : getattr name (snd (request obj)) = getattr name obj).
  { subst request. rewrite bind_eq.
    pose proof (on_sock_frame (sendall command) obj) as Hsend.
    destruct (on_sock (sendall command) obj) as [[[]|e] obj1];
      cbn [snd] in Hsend; [|now rewrite Hsend].
    rewrite bind_eq.
    pose proof (recv_all_frame response_complete obj1) as Hread.
    destruct (_recv_all response_complete obj1) as [[reply|e] obj2];
      cbn [snd] in Hread; [|now rewrite Hread, Hsend].
    rewrite bind_eq. unfold lift.
    destruct (ServerPropertiesResponse reply) as [response|e];
      [|now rewrite Hread, Hsend].
    unfold setattr, getattr. cbn [snd private].
    rewrite lookup_insert_ne by exact Hname.
    now rewrite Hread, Hsend. }
  destruct (request obj) as [r obj1]. now apply Hfinal.
Qed.

(** C9, as the code has it, for [strategies] and for [databases] alike:
    the first access, made while the object holds no value for the
    attribute, sends the one request, reads the reply, and keeps its
    decoded content on the object; when this content is not empty, every
    later access on an object that still holds it returns it and calls
    nothing, so sends nothing. *)
Theorem server_properties_cached
  (access : ReadOnlyDescriptor -> M DictionaryClient (list string))
  (descriptor : ReadOnlyDescriptor) (command : bytes)
  (obj obj2 : DictionaryClient) (reply : bytes)
  (response : Response (list string)) :
  (access =
     Strategies__get__ response_complete show_strategies_command
       ServerPropertiesResponse
   /\ descriptor = strategies /\ command = show_strategies_command)
  \/ (access =
        Databases__get__ response_complete show_databases_command
          ServerPropertiesResponse
      /\ descriptor = databases /\ command = show_databases_command) ->
  truthy (getattr (private_name descriptor) obj) = false ->
  closed (sock obj) = false ->
  _recv_all response_complete (snd (on_sock (sendall command) obj)) =
  (Ok reply, obj2) ->
  ServerPropertiesResponse reply = Ok response ->
  content response <> [] ->
  access descriptor obj =
  (Ok (content response),
   snd (setattr (private_name descriptor) (content response) obj2)) /\
  (exists reads,
     calls (sock (snd (access descriptor obj))) =
     calls (sock obj) ++ sendall_call command :: reads /\
     Forall read_call reads) /\
  (forall later,
     getattr (private_name descriptor) later = Some (content response) ->
     access descriptor later = (Ok (content response), later)).
Proof.
  intros Hwhich Hempty Hopen Hread Hdecoded Hcontent.
  assert (Haccess : access descriptor = fetch descriptor command).
  { destruct Hwhich as [(-> & _ & ->)|(-> & _ & ->)]; reflexivity. }
  rewrite Haccess.
  rewrite (fetch_once_first descriptor command obj obj2 reply response
             Hempty Hopen Hread Hdecoded).
  split; [reflexivity | split].
  - assert (Hsent :
      closed (sock (snd (on_sock (sendall command) obj))) = false)
      by now rewrite (on_sock_sendall_open _ obj Hopen).
    destruct (recv_all_open response_complete _ Hsent)
      as [_ (reads & Hcalls & Hreads)].
    rewrite Hread in Hcalls. cbn [snd] in Hcalls.
    rewrite (on_sock_sendall_open _ obj Hopen) in Hcalls.
    cbn [snd sock with_sock calls] in Hcalls.
    exists reads. split; [|exact Hreads].
    cbn [snd setattr sock]. rewrite Hcalls, <- app_assoc. reflexivity.
  - intros later Hlater. now apply fetch_once_cached.
Qed.

End ServerProperties.

Lemma server_properties_cached_witness :
  fst (example_strategies (ready_client [Data strategies_reply])) =
  Ok ["exact Match exactly"; "prefix Match prefixes"]%string /\
  example_strategies
    (snd (example_strategies (ready_client [Data strategies_reply]))) =
  (Ok ["exact Match exactly"; "prefix Match prefixes"]%string,
   snd (example_strategies (ready_client [Data strategies_reply]))).
Proof.
  destruct (server_properties_cached registry_response_complete
              example_show_strategies_command example_show_databases_command
              name_list_response
              (Strategies__get__ registry_response_complete
                 example_show_strategies_command name_list_response)
              strategies example_show_strategies_command
              (ready_client [Data strategies_reply]) strategies_read
              strategies_reply
              {| status_code := 111;
                 content :=
                   ["exact Match exactly"; "prefix Match prefixes"]%string |})
    as (Hfirst & _ & Hlater).
  - left. repeat split; reflexivity.
  - reflexivity.
  - reflexivity.
  - vm_compute. reflexivity.
  - reflexivity.
  - discriminate.
  - split.
    + unfold example_strategies. rewrite Hfirst. reflexivity.
    + apply Hlater. vm_compute. reflexivity.
Defined.

(** C9 as stated fails: when the decoded content is empty, the second
    access sends the request again. *)
Lemma strategies_fetched_again_counterexample :
  let first :=
    example_strategies
      (ready_client [Data no_strategies_reply; Data no_strategies_reply]) in
  let second := example_strategies (snd first) in
  fst first = Ok [] /\
  getattr "_strategies" (snd first) = Some [] /\
  fst second = Ok [] /\
  calls (sock (snd second)) =
  [sendall_call example_show_strategies_command; select_call 5;
   recv_call BUF_SIZE;
   sendall_call example_show_strategies_command; select_call 5;
   recv_call BUF_SIZE].
Proof. vm_compute. repeat split; reflexivity. Qed.

(** ** The attributes are read-only *)

Section ReadOnly.

Variable response_complete : Z -> bool.
Variable disconnect_command : bytes.

(** C10: assigning to [strategies] or [databases], or deleting one of
    them, raises the [AttributeError] whose message names the class and
    the attribute as read-only, and leaves the object as it was; and the
    methods that talk to the server change nothing of the object but its
    socket, so the values kept for the two attributes are written by
    their accessors alone. *)
Theorem read_only_attributes (obj : DictionaryClient) (value : list string) :
  (__set__ strategies value obj =
   (Raise
      (AttributeError
         (class_name obj ++ ".strategies is a read-only attribute")), obj)
   /\ __delete__ strategies obj =
      (Raise
         (AttributeError
            (class_name obj ++ ".strategies is a read-only attribute")),
       obj)
   /\ __set__ databases value obj =
      (Raise
         (AttributeError
            (class_name obj ++ ".databases is a read-only attribute")), obj)
   /\ __delete__ databases obj =
      (Raise
         (AttributeError
            (class_name obj ++ ".databases is a read-only attribute")),
       obj))
  /\ private (snd (_recv_all response_complete obj)) = private obj
  /\ (forall (command : bytes)
        (response_class : bytes -> result (Response string)),
        private
          (snd (_get_response response_complete command response_class obj))
        = private obj)
  /\ private (snd (disconnect response_complete disconnect_command obj))
     = private obj.
Proof.
  split; [repeat split|split; [|split]].
  - now rewrite (recv_all_frame response_complete obj).
  - intros command response_class.
    now rewrite (get_response_frame response_complete command
                   response_class obj).
  - now rewrite (disconnect_frame response_complete disconnect_command obj).
Qed.

End ReadOnly.

Example databases_read_only :
  __set__ databases ["wn"%string] (ready_client []) =
  (Raise
     (AttributeError "DictionaryClient.databases is a read-only attribute"),
   ready_client []).
Proof. reflexivity. Qed.

(** * Further properties *)

(** ** What [_recv_all] does to the socket and to the data *)

Lemma wait_readable_stream (timeout : nat) (evs : list event) :
  stream (snd (wait_readable timeout evs)) = stream evs.
Proof.
  revert timeout; induction evs as [|[d|segment] evs IH]; intros timeout;
    cbn [wait_readable]; [reflexivity | | reflexivity].
  destruct (timeout <? d)%nat; [reflexivity | apply IH].
Qed.

Lemma after_first_read_stream (self : DictionaryClient) (segment : bytes)
  (rest : list event) :
  firstn BUF_SIZE segment
  ++ stream (pending (sock (after_first_read self segment rest)))
  = segment ++ stream rest.
Proof.
  unfold after_first_read; cbn [sock with_sock pending].
  destruct (length segment <=? BUF_SIZE)%nat eqn:Hfits.
  - apply Nat.leb_le in Hfits. now rewrite firstn_all2.
  - cbn [stream]. now rewrite app_assoc, firstn_skipn.
Qed.

(** The loop keeps the bytes in order: what it has read and what is still
    to come are together what there was. *)
Lemma receive_rest_stream (code : Z) (buf : bytes) (self : DictionaryClient) :
  closed (sock self) = false ->
  exists consumed,
    buf ++ stream (pending (sock self)) =
    consumed ++ stream (pending (sock (snd (receive_rest code buf self)))) /\
    forall reply, fst (receive_rest code buf self) = Ok reply ->
                  consumed = reply.
Proof.
  remember (weight (pending (sock self))) as n eqn:Hn.
  revert buf self Hn.
  induction n as [n IH] using lt_wf_ind. intros buf self Hn Hopen.
  rewrite receive_rest_eq.
  destruct (_response_complete buf).
  { exists buf. split; [reflexivity | now intros reply [= <-]]. }
  rewrite (on_sock_select_open 5 self Hopen).
  pose proof (wait_readable_stream 5 (pending (sock self))) as Hstream.
  pose proof (wait_readable_weight 5 (pending (sock self))) as Hw.
  destruct (wait_readable 5 (pending (sock self))) as [ready evs] eqn:Hwait.
  cbn [fst snd] in *. destruct ready.
  2:{ exists buf. cbn [fst snd sock with_sock pending]. rewrite Hstream.
      split; [reflexivity | discriminate]. }
  destruct (wait_readable_ready _ _ _ Hwait) as (segment & rest & ->).
  set (self1 := with_sock _ self).
  rewrite (on_sock_recv_ready BUF_SIZE self1 segment rest eq_refl eq_refl).
  assert (Hafter :
    with_sock
      {| pending :=
           if (length segment <=? BUF_SIZE)%nat then rest
           else Data (skipn BUF_SIZE segment) :: rest;
         closed := false;
         calls := calls (sock self1) ++ [recv_call BUF_SIZE] |} self1
    = after_first_read self segment rest).
  { unfold after_first_read, self1; cbn [sock with_sock calls].
    rewrite <- app_assoc. reflexivity. }
  rewrite Hafter.
  assert (Hlt :
    (weight (pending (sock (after_first_read self segment rest))) < n)%nat).
  { subst n. unfold after_first_read; cbn [sock with_sock pending].
    cbn [weight] in Hw.
    destruct (length segment <=? BUF_SIZE)%nat eqn:Hle; cbn [weight]; [lia|].
    apply Nat.leb_gt in Hle. rewrite length_skipn. unfold BUF_SIZE in *. lia. }
  destruct (IH _ Hlt (buf ++ firstn BUF_SIZE segment)
              (after_first_read self segment rest) eq_refl eq_refl)
    as (consumed & Hsplit & Hreply).
  exists consumed. split; [|exact Hreply].
  rewrite <- Hsplit, <- Hstream. cbn [stream].
  rewrite <- app_assoc. f_equal. symmetry. apply after_first_read_stream.
Qed.

Section Reading.

Variable response_complete : Z -> bool.


(** X2: [_recv_all] keeps the bytes of the server in order and loses none
    while it succeeds: the reply it returns, followed by what the socket
    still has to deliver, is exactly what the socket had to deliver
    before the call.  When it raises, the bytes it had read are gone:
    what is left on the socket is a tail of what there was. *)
Theorem recv_all_stream (self : DictionaryClient) :
  closed (sock self) = false ->
  exists consumed,
    stream (pending (sock self)) =
    consumed
    ++ stream (pending (sock (snd (_recv_all response_complete self)))) /\
    forall reply,
      fst (_recv_all response_complete self) = Ok reply -> consumed = reply.
Proof.
  intros Hopen.
  pose proof (wait_readable_stream 5 (pending (sock self))) as Hstream.
  destruct (wait_readable 5 (pending (sock self))) as [[|] evs] eqn:Hwait;
    cbn [snd] in Hstream.
  - destruct (wait_readable_ready _ _ _ Hwait) as (segment & rest & ->).
    rewrite (recv_all_first_read response_complete self _ _ Hopen Hwait).
    rewrite <- Hstream. cbn [stream].
    rewrite <- (after_first_read_stream self segment rest).
    destruct (_get_status (firstn BUF_SIZE segment)) as [code|e].
    + destruct (response_complete code).
      * exists (firstn BUF_SIZE segment).
        split; [reflexivity | now intros reply [= <-]].
      * apply (receive_rest_stream code (firstn BUF_SIZE segment)
                 (after_first_read self segment rest) eq_refl).
    + exists (firstn BUF_SIZE segment). split; [reflexivity | discriminate].
  - rewrite recv_all_eq, (on_sock_select_open 5 self Hopen), Hwait.
    exists []. cbn [fst snd sock with_sock pending]. rewrite Hstream.
    split; [reflexivity | discriminate].
Qed.

End Reading.


Lemma recv_all_stream_witness :
  exists consumed,
    stream year_entry_script =
    consumed
    ++ stream
         (pending
            (sock (snd (example_recv_all (ready_client year_entry_script)))))
    /\ forall reply,
         fst (example_recv_all (ready_client year_entry_script)) = Ok reply ->
         consumed = reply.
Proof.
  exact (recv_all_stream registry_response_complete
           (ready_client year_entry_script) eq_refl).
Defined.

(** ** Reads that return nothing *)

Section EmptyReads.

Variable response_complete : Z -> bool.

(** X4: a read that returns nothing is not taken for the end of the
    reply.  After a first line that leaves the reply incomplete, [n]
    reads in a row that return nothing leave [_recv_all] where the first
    read left it, with the same buffer, [n] rounds later: whatever [n]
    is, the call makes more than [n] rounds before it comes back.  So a
    server whose reads return nothing, as they do once it has closed the
    connection, keeps the call going for as long as they do. *)
Theorem recv_all_empty_reads (self : DictionaryClient) (segment : bytes)
  (n : nat) (more : list event) (code : Z) :
  closed (sock self) = false ->
  pending (sock self) = Data segment :: repeat (Data []) n ++ more ->
  (length segment <= BUF_SIZE)%nat ->
  _get_status segment = Ok code ->
  response_complete code = false ->
  _response_complete segment = false ->
  _recv_all response_complete self =
  receive_rest code segment
    (with_sock
       {| pending := more; closed := false;
          calls := calls (sock self) ++ rounds (S n) |} self) /\
  exists k,
    calls (sock (snd (_recv_all response_complete self))) =
    calls (sock self) ++ rounds (S n + k)
    ++ match fst (_recv_all response_complete self) with
       | Ok _ => []
       | Raise _ => [select_call 5]
       end.
Proof.
  intros Hopen Hpending Hfits Hstatus Hpreliminary Hincomplete.
  assert (Hloop :
    _recv_all response_complete self =
    receive_rest code segment
      (with_sock
         {| pending := more; closed := false;
            calls := calls (sock self) ++ rounds (S n) |} self)).
  { rewrite (recv_all_first_read response_complete self segment
               (repeat (Data []) n ++ more) Hopen)
      by now rewrite Hpending.
    rewrite firstn_all2 by exact Hfits.
    rewrite Hstatus, Hpreliminary.
    rewrite (receive_rest_empty_reads code n more segment
               (after_first_read self segment (repeat (Data []) n ++ more))
               eq_refl Hincomplete).
    - f_equal. unfold after_first_read; cbn [sock with_sock calls].
      rewrite <- rounds_S, <- !app_assoc. reflexivity.
    - unfold after_first_read; cbn [sock with_sock pending].
      apply Nat.leb_le in Hfits. now rewrite Hfits. }
  split; [exact Hloop|]. rewrite Hloop.
  set (round := with_sock _ self).
  destruct (receive_rest_outcome code segment round eq_refl) as [k Hk].
  exists k. unfold loop_outcome in Hk.
  destruct (receive_rest code segment round) as [[reply|e] self'];
    destruct Hk as (_ & _ & Hr); cbn [fst snd].
  - destruct Hr as (_ & _ & ->). unfold round; cbn [sock with_sock calls].
    now rewrite List.app_nil_r, <- rounds_app, <- !app_assoc.
  - destruct Hr as (_ & ->). unfold round; cbn [sock with_sock calls].
    now rewrite <- rounds_app, <- !app_assoc.
Qed.

End EmptyReads.

(** Three reads that return nothing after the first line, then silence:
    the call has made four rounds when its wait times out. *)
Lemma recv_all_empty_reads_witness :
  let segment := b"150 1 definitions" ++ CRLF in
  let self :=
    ready_client [Data segment; Data []; Data []; Data []; Delay 6] in
  example_recv_all self =
  receive_rest 150 segment
    (with_sock
       {| pending := [Delay 6]; closed := false;
          calls := calls (sock self) ++ rounds 4 |} self) /\
  exists k,
    calls (sock (snd (example_recv_all self))) =
    calls (sock self) ++ rounds (4 + k)
    ++ match fst (example_recv_all self) with
       | Ok _ => []
       | Raise _ => [select_call 5]
       end.
Proof.
  intros segment self.
  apply (recv_all_empty_reads registry_response_complete self segment 3
           [Delay 6] 150); try reflexivity.
  apply Nat.leb_le; reflexivity.
Defined.

Example empty_reads_outcome :
  let self :=
    ready_client
      [Data (b"150 1 definitions" ++ CRLF); Data []; Data []; Data [];
       Delay 6] in
  fst (example_recv_all self) = Raise (TimeoutError (Some 150)) /\
  calls (sock (snd (example_recv_all self))) = rounds 4 ++ [select_call 5].
Proof. vm_compute. split; reflexivity. Qed.

(** ** The range of the status *)

Lemma count_digits_length (s : bytes) : (count_digits s <= length s)%nat.
Proof.
  induction s as [|c s IH]; cbn [count_digits length]; [lia|].
  destruct (digit_value c); lia.
Qed.

Lemma skip_space_digits (s : bytes) :
  count_digits (skip_space s) = count_digits s /\
  (length (skip_space s) <= length s)%nat.
Proof.
  induction s as [|c s [IHc IHl]]; [split; reflexivity|].
  cbn [skip_space]. destruct (is_space c) eqn:Hspace; [|split; reflexivity].
  cbn [count_digits length]. destruct (digit_value c) as [d|] eqn:Hdigit.
  - apply digit_value_facts in Hdigit as (Hs & _). congruence.
  - split; [exact IHc | lia].
Qed.

Lemma scan_digits_bound (acc : Z) (prev_underscore : bool) (s rest : bytes)
  (n : Z) :
  0 <= acc ->
  scan_digits acc prev_underscore s = Some (n, rest) ->
  0 <= n /\ n + 1 <= (acc + 1) * 10 ^ Z.of_nat (count_digits s).
Proof.
  revert acc prev_underscore.
  induction s as [|c s IH]; intros acc prev_underscore Hacc;
    cbn [scan_digits count_digits].
  - destruct prev_underscore; [discriminate|]. intros [= <- <-].
    cbn. lia.
  - destruct (digit_value c) as [d|] eqn:Hdigit.
    + apply digit_value_facts in Hdigit as (_ & _ & _ & Hd).
      intros Hscan. apply IH in Hscan; [|lia].
      rewrite Nat2Z.inj_succ, Z.pow_succ_r by lia.
      assert (0 < 10 ^ Z.of_nat (count_digits s)) by (apply Z.pow_pos_nonneg; lia).
      nia.
    + assert (Hone : 1 <= 10 ^ Z.of_nat (count_digits s))
        by (pose proof (Z.pow_pos_nonneg 10 (Z.of_nat (count_digits s))); lia).
      destruct (Byte.eqb c x5f).
      * destruct prev_underscore; [discriminate|]. apply IH, Hacc.
      * destruct prev_underscore; [discriminate|]. intros [= <- <-]. nia.
Qed.

(** A literal that [int] accepts has at least as many digits as its value
    needs, and one byte more when the value is negative. *)
Lemma int_bound (x : bytes) (v : Z) :
  int x = Some v ->
  Z.abs v + 1 <= 10 ^ Z.of_nat (count_digits x) /\
  (v < 0 -> (count_digits x < length x)%nat).
Proof.
  unfold int. destruct (skip_space_digits x) as [Hcount Hlength].
  rewrite <- Hcount. revert Hlength.
  destruct (skip_space x) as [|c s]; [discriminate|]. intros Hlength.
  assert (Hscan : forall sign s',
    (sign = 1 \/ sign = -1) ->
    match s' with
    | [] => None
    | c' :: _ =>
        match digit_value c' with
        | Some _ =>
            match scan_digits 0 false s' with
            | Some (n, rest) =>
                match skip_space rest with
                | [] => Some (sign * n)
                | _ :: _ => None
                end
            | None => None
            end
        | None => None
        end
    end = Some v ->
    Z.abs v + 1 <= 10 ^ Z.of_nat (count_digits s') /\
    (v < 0 -> sign = -1)).
  { intros sign [|c' s'] Hsign; [discriminate|].
    destruct (digit_value c'); [|discriminate].
    destruct (scan_digits 0 false (c' :: s')) as [[n rest]|] eqn:Hscan;
      [|discriminate].
    destruct (skip_space rest); [|discriminate]. intros [= <-].
    apply scan_digits_bound in Hscan as [Hn Hbound]; [|lia].
    destruct Hsign as [-> | ->]; split; lia. }
  destruct (Byte.eqb c x2b) eqn:Hplus.
  { apply Byte.byte_dec_bl in Hplus. subst c. cbn [count_digits].
    change (digit_value x2b) with (@None Z).
    intros Hv. apply (Hscan 1 s) in Hv as [Hbound Hneg]; [|auto].
    split; [exact Hbound | lia]. }
  destruct (Byte.eqb c x2d) eqn:Hminus.
  { apply Byte.byte_dec_bl in Hminus. subst c. cbn [count_digits].
    change (digit_value x2d) with (@None Z).
    intros Hv. apply (Hscan (-1) s) in Hv as [Hbound Hneg]; [|auto].
    split; [exact Hbound|]. intros _.
    pose proof (count_digits_length s). cbn [length] in Hlength. lia. }
  intros Hv. apply (Hscan 1 (c :: s)) in Hv as [Hbound Hneg]; [|auto].
  split; [exact Hbound | lia].
Qed.

Lemma three_digits_counted (prefix : bytes) :
  (length prefix <= 3)%nat -> count_digits prefix = 3%nat ->
  exists code, three_digit_code prefix = Some code.
Proof.
  intros Hlength Hcount.
  destruct prefix as [|c1 [|c2 [|c3 [|c4 prefix]]]];
    cbn [length] in Hlength; try lia;
    cbn [count_digits three_digit_code] in *.
  - discriminate.
  - destruct (digit_value c1); lia.
  - destruct (digit_value c1), (digit_value c2); lia.
  - destruct (digit_value c1), (digit_value c2), (digit_value c3);
      try lia; eauto.
Qed.

(** X3: the status that [_get_status] reads lies between -99 and 999,
    and a status of 100 or more is read only from a prefix of exactly
    three digits, of which it is the decimal value. *)
Theorem get_status_range (response_bytes : bytes) (code : Z) :
  _get_status response_bytes = Ok code ->
  -99 <= code <= 999 /\
  (100 <= code -> three_digit_code (slice_to 3 response_bytes) = Some code).
Proof.
  unfold _get_status.
  destruct (int (slice_to 3 response_bytes)) as [v|] eqn:Hint; [|discriminate].
  intros [= <-]. pose proof (int_bound _ _ Hint) as [Hbound Hneg].
  pose proof (count_digits_length (slice_to 3 response_bytes)) as Hcount.
  assert (Hlength : (length (slice_to 3 response_bytes) <= 3)%nat).
  { unfold slice_to. rewrite length_firstn. lia. }
  assert (Hmono : forall k : nat, (k <= 3)%nat ->
    (count_digits (slice_to 3 response_bytes) <= k)%nat ->
    Z.abs v + 1 <= 10 ^ Z.of_nat k).
  { intros k _ Hk. etransitivity; [exact Hbound|].
    apply Z.pow_le_mono_r; lia. }
  split; [split|].
  - destruct (Z.ltb_spec v 0) as [Hv|Hv]; [|lia].
    specialize (Hneg Hv). specialize (Hmono 2%nat). cbn in Hmono. lia.
  - specialize (Hmono 3%nat). cbn in Hmono. lia.
  - intros Hcode.
    assert (Hthree : count_digits (slice_to 3 response_bytes) = 3%nat).
    { destruct (Nat.eq_dec (count_digits (slice_to 3 response_bytes)) 3%nat)
        as [|Hne]; [assumption|].
      specialize (Hmono 2%nat). cbn in Hmono. lia. }
    destruct (three_digits_counted _ Hlength Hthree) as [code Hdigits].
    rewrite Hdigits. apply three_digit_code_int in Hdigits. congruence.
Qed.

Lemma get_status_range_witness :
  -99 <= 150 <= 999 /\
  (100 <= 150 ->
   three_digit_code (slice_to 3 (b"150 1 definitions" ++ CRLF)) = Some 150).
Proof.
  exact (get_status_range (b"150 1 definitions" ++ CRLF) 150 eq_refl).
Defined.

(** ** When a buffer is judged complete *)

Lemma startswith_iff (s prefix : bytes) :
  startswith s prefix = true <-> exists rest, s = prefix ++ rest.
Proof.
  split.
  - revert s; induction prefix as [|p prefix IH]; intros s;
      cbn [startswith]; [eauto|].
    destruct s as [|c s]; [discriminate|].
    rewrite andb_true_iff. intros [Hp Hrest].
    apply Byte.byte_dec_bl in Hp. subst c.
    destruct (IH s Hrest) as [rest ->]. now exists rest.
  - intros [rest ->].
    rewrite <- (List.app_nil_r prefix) at 2.
    apply startswith_prepend. reflexivity.
Qed.

Lemma contains_iff (needle s : bytes) :
  contains needle s = true <->
  exists before after, s = before ++ needle ++ after.
Proof.
  split.
  - induction s as [|c s IH]; cbn [contains]; rewrite orb_true_iff.
    + intros [Hstart|]; [|discriminate].
      apply startswith_iff in Hstart as [after ->]. now exists [], after.
    + intros [Hstart|Hlater].
      * apply startswith_iff in Hstart as [after ->]. now exists [], after.
      * destruct (IH Hlater) as (before & after & ->).
        now exists (c :: before), after.
  - intros (before & after & ->). apply contains_skip, contains_startswith.
    apply startswith_iff. now exists after.
Qed.

Lemma slice_last_iff (s : bytes) :
  slice_last 2 s = CRLF <-> exists before, s = before ++ CRLF.
Proof.
  split.
  - intros Hlast. exists (firstn (length s - 2) s).
    rewrite <- Hlast. unfold slice_last. now rewrite firstn_skipn.
  - intros [before ->]. apply slice_last_crlf.
Qed.

(** ** A request and its reply *)

Section Request.

Variable response_complete : Z -> bool.
Variable C : Type.
Variable command : bytes.
Variable response_class : bytes -> result (Response C).

(** X5: on an open socket [_get_response] sends its command once, before
    anything is read, then only waits and reads, and leaves the socket
    open; what the response class makes of the reply is the result, and
    when no reply comes the error of [_recv_all] is, the response class
    being left alone.  So do [get_server_status],
    [get_server_information] and [get_help_text], which are this call. *)
Theorem get_response_calls (self : DictionaryClient) :
  closed (sock self) = false ->
  let sent := snd (on_sock (sendall command) self) in
  let answer := _get_response response_complete command response_class self in
  closed (sock (snd answer)) = false /\
  (exists reads,
     calls (sock (snd answer)) =
     calls (sock self) ++ sendall_call command :: reads /\
     Forall read_call reads) /\
  (forall reply,
     fst (_recv_all response_complete sent) = Ok reply ->
     fst answer = response_class reply) /\
  (forall e,
     fst (_recv_all response_complete sent) = Raise e ->
     fst answer = Raise e).
Proof.
  intros Hopen sent answer.
  assert (Hanswer :
    answer =
    match _recv_all response_complete sent with
    | (Ok reply, self') => (response_class reply, self')
    | (Raise e, self') => (Raise e, self')
    end).
  { subst answer sent. unfold _get_response.
    rewrite !bind_eq, (on_sock_sendall_open _ self Hopen). cbn [snd].
    rewrite bind_eq.
    destruct (_recv_all response_complete _) as [[reply|e] self'];
      reflexivity. }
  assert (Hsent : closed (sock sent) = false)
    by (subst sent; now rewrite (on_sock_sendall_open _ self Hopen)).
  destruct (recv_all_open response_complete sent Hsent)
    as [Hkeep (reads & Hcalls & Hreads)].
  assert (Hstate : snd answer = snd (_recv_all response_complete sent)).
  { rewrite Hanswer.
    destruct (_recv_all response_complete sent) as [[reply|e] self'];
      reflexivity. }
  rewrite Hstate. split; [exact Hkeep | split; [|split]].
  - exists reads. split; [|exact Hreads]. rewrite Hcalls. subst sent.
    rewrite (on_sock_sendall_open _ self Hopen).
    cbn [snd sock with_sock calls]. now rewrite <- app_assoc.
  - intros reply Hreply. rewrite Hanswer.
    destruct (_recv_all response_complete sent) as [[reply'|e] self'];
      cbn [fst] in *; congruence.
  - intros e He. rewrite Hanswer.
    destruct (_recv_all response_complete sent) as [[reply'|e'] self'];
      cbn [fst] in *; congruence.
Qed.

End Request.

Lemma get_response_calls_witness :
  fst (example_get_server_status (ready_client [Data status_reply])) =
  status_line_response status_reply.
Proof.
  refine (proj1 (proj2 (proj2
    (get_response_calls registry_response_complete string
       example_status_command status_line_response
       (ready_client [Data status_reply]) eq_refl))) status_reply _).
  vm_compute. reflexivity.
Defined.

(** ** What the handshake leaves behind *)

Section Constructed.

Variable response_complete : Z -> bool.
Variable client_ident_command : string -> bytes.
Variables HandshakeResponse PreliminaryResponse
  : bytes -> result (Response string).

Lemma init_closed (user hostname now host : string) (port : Z)
  (new_sock : socket) :
  closed new_sock = true ->
  fst (__init__ response_complete client_ident_command HandshakeResponse
         PreliminaryResponse user hostname now host port new_sock) =
  Raise ClosedSocketError.
Proof.
  intros Hclosed. unfold __init__, _connect. rewrite !bind_eq.
  unfold on_sock, connect, logged. cbn [closed sock new_object].
  rewrite Hclosed. reflexivity.
Qed.

(** X6: a client that the constructor returns has an open socket, no
    value kept for [strategies] or [databases], the greeting's content
    as its [server_info], and [user@hostname now] as its identification;
    and the calls made on its socket are the connection, the waits and
    reads of the greeting, the one identification command, built from
    that identification, and the waits and reads of its
    acknowledgement. *)
Theorem new_client_calls (user hostname now host : string) (port : Z)
  (new_sock : socket) (client : DictionaryClient) :
  new_client response_complete client_ident_command HandshakeResponse
    PreliminaryResponse user hostname now host port new_sock = Ok client ->
  closed (sock client) = false /\
  private client = ∅ /\
  class_name client = "DictionaryClient"%string /\
  client_id_info client = ((user ++ "@" ++ hostname) ++ " " ++ now)%string /\
  (exists info, server_info client = Some info) /\
  exists greeting_reads acknowledgement_reads,
    calls (sock client) =
    calls new_sock
    ++ connect_call host port :: greeting_reads
    ++ sendall_call
         (client_ident_command ((user ++ "@" ++ hostname) ++ " " ++ now)%string)
       :: acknowledgement_reads /\
    Forall read_call greeting_reads /\
    Forall read_call acknowledgement_reads.
Proof.
  intros Hready.
  destruct (closed new_sock) eqn:Hopen.
  { pose proof (init_closed user hostname now host port new_sock Hopen)
      as Hinit.
    unfold new_client in Hready.
    destruct (__init__ _ _ _ _ _ _ _ _ _ _) as [[[]|e] self];
      cbn [fst] in Hinit; discriminate. }
  unfold new_client in Hready.
  rewrite (init_eq response_complete client_ident_command HandshakeResponse
             PreliminaryResponse user hostname now host port new_sock Hopen)
    in Hready.
  set (self0 := new_object user hostname now new_sock) in *.
  assert (Hopen0 : closed (sock self0) = false) by exact Hopen.
  rewrite (on_sock_connect_open host port self0 Hopen0) in Hready.
  cbn [snd] in Hready. set (connected := with_sock _ self0) in *.
  destruct (recv_all_open response_complete connected eq_refl)
    as [Hopen2 (reads1 & Hcalls2 & Hreads1)].
  pose proof (recv_all_frame response_complete connected) as Hframe2.
  destruct (_recv_all response_complete connected) as [[greeting|e] self2];
    [|discriminate].
  cbn [snd] in *.
  destruct (HandshakeResponse greeting) as [hello|e]; [|discriminate].
  destruct (status_code hello =? 220); [|discriminate].
  assert (Hsent :
    ident_sent client_ident_command self2 =
    with_sock
      {| pending := pending (sock self2); closed := false;
         calls :=
           calls (sock self2)
           ++ [sendall_call (client_ident_command (client_id_info self2))] |}
      self2).
  { unfold ident_sent. now rewrite (on_sock_sendall_open _ self2 Hopen2). }
  destruct (recv_all_open response_complete
              (ident_sent client_ident_command self2))
    as [Hopen4 (reads2 & Hcalls4 & Hreads2)];
    [now rewrite Hsent|].
  pose proof (recv_all_frame response_complete
                (ident_sent client_ident_command self2)) as Hframe4.
  destruct (_recv_all response_complete
              (ident_sent client_ident_command self2))
    as [[ack|e] self4]; [|discriminate].
  cbn [snd] in *.
  destruct (PreliminaryResponse ack) as [acknowledgement|e]; [|discriminate].
  destruct (status_code acknowledgement =? 250); [|discriminate].
  injection Hready as <-.
  assert (Hself4 : self4 = with_sock (sock self4) self0).
  { rewrite Hframe4, Hsent. cbn [with_sock]. rewrite Hframe2. reflexivity. }
  assert (Hid : client_id_info self2
                = ((user ++ "@" ++ hostname) ++ " " ++ now)%string).
  { rewrite Hframe2. reflexivity. }
  rewrite Hsent, Hid in Hcalls4. cbn [sock with_sock calls] in Hcalls4.
  cbn [with_server_info sock private class_name client_id_info server_info].
  repeat split.
  - exact Hopen4.
  - now rewrite Hself4.
  - now rewrite Hself4.
  - now rewrite Hself4.
  - eauto.
  - exists reads1, reads2. split; [|split; assumption].
    rewrite Hcalls4, Hcalls2. unfold connected; cbn [sock with_sock calls].
    rewrite <- !app_assoc. reflexivity.
Qed.

End Constructed.

Lemma new_client_calls_witness :
  exists client,
    example_new_client
      [Data (b"220 dictd ready" ++ CRLF); Data (b"250 ok" ++ CRLF)]
    = Ok client /\
    closed (sock client) = false /\ private client = ∅.
Proof.
  destruct (example_new_client
              [Data (b"220 dictd ready" ++ CRLF); Data (b"250 ok" ++ CRLF)])
    as [client|e] eqn:Hready; [|vm_compute in Hready; discriminate].
  exists client. split; [reflexivity|].
  destruct (new_client_calls registry_response_complete
              example_client_ident_command status_line_response
              status_line_response "user" "host" "2024-05-01T12:00:00"
              "localhost" DEFAULT_PORT
              (scripted_socket
                 [Data (b"220 dictd ready" ++ CRLF);
                  Data (b"250 ok" ++ CRLF)])
              client Hready) as (Hopen & Hprivate & _).
  split; assumption.
Defined.

(** ** More on [disconnect] *)

Section Quit.

Variable response_complete : Z -> bool.
Variable disconnect_command : bytes.

(** On an open socket: the quit command is sent once, then only waits
    and reads follow; the socket is closed when [disconnect] returns and
    is open when it raises. *)
Lemma disconnect_trace (self : DictionaryClient) :
  closed (sock self) = false ->
  exists reads,
    Forall read_call reads /\
    match disconnect response_complete disconnect_command self with
    | (Ok _, self') =>
        closed (sock self') = true /\
        calls (sock self') =
        calls (sock self) ++ sendall_call disconnect_command :: reads
        ++ [close_call]
    | (Raise _, self') =>
        closed (sock self') = false /\
        calls (sock self') =
        calls (sock self) ++ sendall_call disconnect_command :: reads
    end.
Proof.
  intros Hopen. rewrite (disconnect_eq _ _ self Hopen).
  assert (Hsent :
    closed (sock (snd (on_sock (sendall disconnect_command) self))) = false)
    by now rewrite (on_sock_sendall_open _ self Hopen).
  destruct (recv_all_open response_complete _ Hsent)
    as [Hkeep (reads & Hcalls & Hreads)].
  rewrite (on_sock_sendall_open _ self Hopen) in Hcalls at 2.
  cbn [snd sock with_sock calls] in Hcalls. rewrite <- app_assoc in Hcalls.
  exists reads. split; [exact Hreads|].
  destruct (_recv_all response_complete _) as [[reply|e] self2];
    cbn [snd] in *; [|split; assumption].
  destruct (_get_status reply) as [code|e]; [|split; assumption].
  destruct (code =? 221).
  - unfold on_sock, close. cbn [sock with_sock closed calls].
    split; [reflexivity|]. rewrite Hcalls, <- app_assoc. reflexivity.
  - destruct (decode reply); split; assumption.
Qed.

(** X7: on an open socket [disconnect] sends the quit command once,
    before anything is read, and sends nothing else; it closes the
    socket, as its last call, exactly when it returns: whenever it
    raises, for a timeout, an unreadable status or an unexpected one, the
    socket is left open. *)
Theorem disconnect_closes_iff_returns (self : DictionaryClient) :
  closed (sock self) = false ->
  let outcome := disconnect response_complete disconnect_command self in
  (fst outcome = Ok tt <-> closed (sock (snd outcome)) = true) /\
  exists reads,
    Forall read_call reads /\
    calls (sock (snd outcome)) =
    calls (sock self) ++ sendall_call disconnect_command :: reads
    ++ (if closed (sock (snd outcome)) then [close_call] else []).
Proof.
  intros Hopen outcome. subst outcome.
  destruct (disconnect_trace self Hopen) as (reads & Hreads & Htrace).
  destruct (disconnect response_complete disconnect_command self)
    as [[[]|e] self']; destruct Htrace as [Hclosed Hcalls];
    cbn [fst snd]; rewrite Hclosed.
  - split; [tauto|]. exists reads. split; assumption.
  - split; [split; discriminate|]. exists reads.
    split; [assumption | now rewrite List.app_nil_r].
Qed.

(** X8: a client that has disconnected cannot disconnect again: the
    second call raises at the closed socket, having read nothing, and
    the socket stays closed. *)
Theorem disconnect_twice (self : DictionaryClient) :
  closed (sock self) = false ->
  fst (disconnect response_complete disconnect_command self) = Ok tt ->
  let again :=
    disconnect response_complete disconnect_command
      (snd (disconnect response_complete disconnect_command self)) in
  fst again = Raise ClosedSocketError /\
  closed (sock (snd again)) = true /\
  pending (sock (snd again)) =
  pending (sock (snd (disconnect response_complete disconnect_command self))).
Proof.
  intros Hopen Hreturned again. subst again.
  destruct (disconnect_trace self Hopen) as (reads & _ & Htrace).
  destruct (disconnect response_complete disconnect_command self)
    as [[[]|e] self']; [|discriminate].
  destruct Htrace as [Hclosed _]. cbn [snd].
  unfold disconnect. rewrite bind_eq. unfold on_sock, sendall, logged.
  cbn [closed]. rewrite Hclosed. cbn [fst snd sock with_sock closed pending].
  repeat split; assumption || reflexivity.
Qed.

(** X9: when the reply to the quit command carries another status than
    221 and is not UTF-8, building the message of the [ConnectionError]
    fails: [disconnect] raises [UnicodeDecodeError] instead, and the
    socket is left as the read left it. *)
Theorem disconnect_undecodable_reply (self self2 : DictionaryClient)
  (reply : bytes) (code : Z) :
  closed (sock self) = false ->
  _recv_all response_complete
    (snd (on_sock (sendall disconnect_command) self)) = (Ok reply, self2) ->
  _get_status reply = Ok code ->
  code <> 221 ->
  utf8_valid reply = false ->
  disconnect response_complete disconnect_command self =
  (Raise UnicodeDecodeError, self2).
Proof.
  intros Hopen Hread Hstatus Hcode Hinvalid.
  rewrite (disconnect_eq _ _ self Hopen), Hread, Hstatus.
  apply Z.eqb_neq in Hcode. unfold decode. now rewrite Hcode, Hinvalid.
Qed.

End Quit.

Lemma disconnect_closes_iff_returns_witness :
  (fst (example_disconnect (ready_client stalling_script)) = Ok tt <->
   closed (sock (snd (example_disconnect (ready_client stalling_script))))
   = true) /\
  exists reads,
    Forall read_call reads /\
    calls (sock (snd (example_disconnect (ready_client stalling_script)))) =
    [] ++ sendall_call example_disconnect_command :: reads
    ++ (if closed
             (sock (snd (example_disconnect (ready_client stalling_script))))
        then [close_call] else []).
Proof.
  exact (disconnect_closes_iff_returns registry_response_complete
           example_disconnect_command (ready_client stalling_script) eq_refl).
Defined.

Lemma disconnect_twice_witness :
  fst (example_disconnect
         (snd (example_disconnect (ready_client [Data (b"221 bye" ++ CRLF)]))))
  = Raise ClosedSocketError.
Proof.
  refine (proj1
    (disconnect_twice registry_response_complete example_disconnect_command
       (ready_client [Data (b"221 bye" ++ CRLF)]) eq_refl _)).
  vm_compute. reflexivity.
Defined.

(** A refusal whose text holds a byte that is not UTF-8. *)
Lemma disconnect_undecodable_reply_witness :
  example_disconnect (ready_client [Data (b"500 " ++ [xff] ++ CRLF)]) =
  (Raise UnicodeDecodeError,
   with_sock
     {| pending := []; closed := false;
        calls :=
          [sendall_call example_disconnect_command; select_call 5;
           recv_call BUF_SIZE] |}
     (ready_client [Data (b"500 " ++ [xff] ++ CRLF)])).
Proof.
  apply (disconnect_undecodable_reply registry_response_complete
           example_disconnect_command
           (ready_client [Data (b"500 " ++ [xff] ++ CRLF)]) _
           (b"500 " ++ [xff] ++ CRLF) 500).
  - reflexivity.
  - vm_compute. reflexivity.
  - reflexivity.
  - discriminate.
  - reflexivity.
Defined.

(** ** More on the lazy attributes *)

Section Caches.

Variable response_complete : Z -> bool.
Variables show_strategies_command show_databases_command : bytes.
Variable ServerPropertiesResponse : bytes -> result (Response (list string)).

(** A fetch that raises has written nothing on the object. *)
Lemma fetch_once_failed (descriptor : ReadOnlyDescriptor) (command : bytes)
  (obj : DictionaryClient) (e : exn) :
  fst (fetch_once response_complete ServerPropertiesResponse descriptor
         command obj) = Raise e ->
  private
    (snd (fetch_once response_complete ServerPropertiesResponse descriptor
            command obj)) = private obj.
Proof.
  unfold fetch_once. rewrite bind_eq.
  destruct (negb (truthy (getattr (private_name descriptor) obj))).
  2:{ cbn [ret]. destruct (getattr (private_name descriptor) obj);
        reflexivity. }
  rewrite bind_eq.
  pose proof (on_sock_frame (sendall command) obj) as Hsend.
  destruct (on_sock (sendall command) obj) as [[[]|e1] obj1];
    cbn [snd] in Hsend; [|now rewrite Hsend].
  rewrite bind_eq.
  pose proof (recv_all_frame response_complete obj1) as Hread.
  destruct (_recv_all response_complete obj1) as [[reply|e2] obj2];
    cbn [snd] in Hread; [|now rewrite Hread, Hsend].
  rewrite bind_eq. unfold lift.
  destruct (ServerPropertiesResponse reply) as [response|e3];
    [|now rewrite Hread, Hsend].
  unfold setattr, getattr. cbn [private]. rewrite lookup_insert_eq.
  discriminate.
Qed.

(** X10: the two attributes are kept apart: an access to [strategies],
    whatever it does, leaves the value kept for [databases] as it was,
    and an access to [databases] leaves the value kept for [strategies]
    as it was. *)
Theorem accessors_independent (obj : DictionaryClient) :
  getattr "_databases"
    (snd (Strategies__get__ response_complete show_strategies_command
            ServerPropertiesResponse strategies obj))
  = getattr "_databases" obj /\
  getattr "_strategies"
    (snd (Databases__get__ response_complete show_databases_command
            ServerPropertiesResponse databases obj))
  = getattr "_strategies" obj.
Proof.
  split; apply fetch_once_other; discriminate.
Qed.

(** X11: an access that raises, because the request could not be sent,
    no reply came, or the reply could not be decoded, keeps nothing: the
    values on the object are as before, so the next access asks the
    server again. *)
Theorem failed_access_keeps_nothing (obj : DictionaryClient) (e : exn) :
  (fst (Strategies__get__ response_complete show_strategies_command
          ServerPropertiesResponse strategies obj) = Raise e ->
   private
     (snd (Strategies__get__ response_complete show_strategies_command
             ServerPropertiesResponse strategies obj)) = private obj) /\
  (fst (Databases__get__ response_complete show_databases_command
          ServerPropertiesResponse databases obj) = Raise e ->
   private
     (snd (Databases__get__ response_complete show_databases_command
             ServerPropertiesResponse databases obj)) = private obj).
Proof.
  split; apply fetch_once_failed.
Qed.

End Caches.

(** ** The lookups *)

Section LookupProperties.

Variable response_complete : Z -> bool.
Variables show_strategies_command show_databases_command : bytes.
Variable show_info_command : string -> bytes.
Variable ServerPropertiesResponse : bytes -> result (Response (list string)).
Variables DatabaseInfo Definitions Matches word : Type.
Variable DatabaseInfoResponse : bytes -> result (Response DatabaseInfo).
Variable DefineWordResponse : bytes -> result (Response Definitions).
Variable MatchResponse : bytes -> result (Response Matches).
Variable Word : string -> result word.
Variable define_word_command : word -> string -> bytes.
Variable match_command : word -> string -> string -> bytes.

Abbreviation the_databases :=
  (self_databases response_complete show_databases_command
     ServerPropertiesResponse).
Abbreviation the_strategies :=
  (self_strategies response_complete show_strategies_command
     ServerPropertiesResponse).
Abbreviation info_of :=
  (get_db_info response_complete show_databases_command show_info_command
     ServerPropertiesResponse DatabaseInfo DatabaseInfoResponse).
Abbreviation definitions_of :=
  (define response_complete show_databases_command ServerPropertiesResponse
     Definitions word DefineWordResponse Word define_word_command).
Abbreviation matches_of :=
  (match_word response_complete show_strategies_command
     show_databases_command ServerPropertiesResponse Matches word
     MatchResponse Word match_command).

Lemma wildcard_eqb (name wildcard : string) :
  name <> wildcard -> negb (String.eqb name wildcard) = true.
Proof. intros Hname. apply negb_true_iff. now apply String.eqb_neq. Qed.

(** The database of a lookup passes when it is the wildcard, for which
    nothing is asked, or is among the names that the attribute gives. *)
Lemma require_database_passes (db : string) (obj obj1 : DictionaryClient) :
  (db = "*"%string /\ obj1 = obj) \/
  (db <> "*"%string /\
   exists names, the_databases obj = (Ok names, obj1) /\
                 name_in db names = true) ->
  require_database response_complete show_databases_command
    ServerPropertiesResponse db obj = (Ok tt, obj1).
Proof.
  unfold require_database.
  intros [[-> ->]|(Hdb & names & Hnames & Hin)]; [reflexivity|].
  rewrite (wildcard_eqb _ _ Hdb). cbv beta iota.
  rewrite bind_eq, Hnames, Hin. reflexivity.
Qed.

(** X12: a database that is not among the names which the [databases]
    attribute gives is refused with a [ValueError] whose message quotes
    it, in the state in which the attribute left the client: [get_db_info]
    sends no request for it, and, unless it is the wildcard, [define] and
    [match] send none either, make no word, and [match] does not look at
    the strategy at all. *)
Theorem unknown_database_refused (db : string) (names : list string)
  (obj obj1 : DictionaryClient) :
  the_databases obj = (Ok names, obj1) ->
  name_in db names = false ->
  info_of db obj = (Raise (ValueError (invalid_database_message db)), obj1) /\
  (db <> "*"%string ->
   forall word_raw strategy,
     definitions_of word_raw db obj =
     (Raise (ValueError (invalid_database_message db)), obj1) /\
     matches_of word_raw db strategy obj =
     (Raise (ValueError (invalid_database_message db)), obj1)).
Proof.
  intros Hnames Hin. split.
  - unfold get_db_info. now rewrite bind_eq, Hnames, Hin.
  - intros Hdb word_raw strategy.
    assert (Hrequire :
      require_database response_complete show_databases_command
        ServerPropertiesResponse db obj =
      (Raise (ValueError (invalid_database_message db)), obj1)).
    { unfold require_database. rewrite (wildcard_eqb _ _ Hdb).
      cbv beta iota. now rewrite bind_eq, Hnames, Hin. }
    unfold define, match_word. now rewrite !bind_eq, Hrequire.
Qed.

(** X13: [match] refuses a strategy that is neither the default [.] nor
    among the names which the [strategies] attribute gives, with a
    [ValueError] whose message quotes it; it has validated the database
    first, and it makes no word and sends no match request. *)
Theorem unknown_strategy_refused (word_raw db strategy : string)
  (names : list string) (obj obj1 obj2 : DictionaryClient) :
  (db = "*"%string /\ obj1 = obj) \/
  (db <> "*"%string /\
   exists dbs, the_databases obj = (Ok dbs, obj1) /\ name_in db dbs = true) ->
  strategy <> "."%string ->
  the_strategies obj1 = (Ok names, obj2) ->
  name_in strategy names = false ->
  matches_of word_raw db strategy obj =
  (Raise (ValueError (unknown_strategy_message strategy)), obj2).
Proof.
  intros Hdb Hstrategy Hnames Hin.
  unfold match_word. rewrite bind_eq, (require_database_passes _ _ _ Hdb).
  rewrite bind_eq. unfold require_strategy.
  rewrite (wildcard_eqb _ _ Hstrategy). cbv beta iota.
  now rewrite bind_eq, Hnames, Hin.
Qed.

Lemma name_in_cached (name : string) (names : list string)
  (descriptor : ReadOnlyDescriptor) (command : bytes)
  (obj : DictionaryClient) :
  getattr (private_name descriptor) obj = Some names ->
  name_in name names = true ->
  fetch_once response_complete ServerPropertiesResponse descriptor command
    obj = (Ok names, obj).
Proof.
  intros Hattr Hin. apply fetch_once_cached; [exact Hattr|].
  intros ->. discriminate.
Qed.

(** X14: a lookup whose database is the wildcard or among the names kept
    for [databases], and whose strategy is the default or among the names
    kept for [strategies], asks the server for nothing but the lookup
    itself: it is the one request made of the word, and when no word can
    be made of the raw text it raises what [Word] raises and sends
    nothing.  [get_db_info] has no wildcard: it is the one request when
    its database is among the names kept. *)
Theorem lookup_is_one_request (word_raw db strategy : string)
  (obj : DictionaryClient) :
  db = "*"%string \/
  (exists dbs, getattr "_databases" obj = Some dbs /\
               name_in db dbs = true) ->
  strategy = "."%string \/
  (exists names, getattr "_strategies" obj = Some names /\
                 name_in strategy names = true) ->
  (forall w, Word word_raw = Ok w ->
     definitions_of word_raw db obj =
     _get_response response_complete (define_word_command w db)
       DefineWordResponse obj /\
     matches_of word_raw db strategy obj =
     _get_response response_complete (match_command w db strategy)
       MatchResponse obj) /\
  (forall e, Word word_raw = Raise e ->
     definitions_of word_raw db obj = (Raise e, obj) /\
     matches_of word_raw db strategy obj = (Raise e, obj)) /\
  ((exists dbs, getattr "_databases" obj = Some dbs /\
                name_in db dbs = true) ->
   info_of db obj =
   _get_response response_complete (show_info_command db)
     DatabaseInfoResponse obj).
Proof.
  intros Hdb Hstrategy.
  assert (Hrequire :
    require_database response_complete show_databases_command
      ServerPropertiesResponse db obj = (Ok tt, obj)).
  { apply require_database_passes.
    destruct (String.eqb_spec db "*") as [->|Hne]; [now left | right].
    destruct Hdb as [->|(dbs & Hattr & Hin)]; [congruence|].
    split; [exact Hne|]. exists dbs. split; [|exact Hin].
    exact (name_in_cached db dbs databases show_databases_command obj
             Hattr Hin). }
  assert (Hstrategies :
    require_strategy response_complete show_strategies_command
      ServerPropertiesResponse strategy obj = (Ok tt, obj)).
  { unfold require_strategy.
    destruct (String.eqb_spec strategy ".") as [->|Hne]; [reflexivity|].
    destruct Hstrategy as [->|(names & Hattr & Hin)]; [congruence|].
    cbv beta iota. cbn [negb]. rewrite bind_eq.
    unfold self_strategies, Strategies__get__.
    rewrite (name_in_cached strategy names strategies _ obj Hattr Hin), Hin.
    reflexivity. }
  split; [|split].
  - intros w Hword. unfold define, match_word, lift.
    rewrite !bind_eq, Hrequire. cbv beta iota.
    rewrite !bind_eq, Hstrategies, Hword. split; reflexivity.
  - intros e Hword. unfold define, match_word, lift.
    rewrite !bind_eq, Hrequire. cbv beta iota.
    rewrite !bind_eq, Hstrategies, Hword. split; reflexivity.
  - intros (dbs & Hattr & Hin). unfold get_db_info.
    rewrite bind_eq. unfold self_databases, Databases__get__.
    rewrite (name_in_cached db dbs databases _ obj Hattr Hin), Hin.
    reflexivity.
Qed.

End LookupProperties.

Lemma unknown_database_refused_witness :
  example_get_db_info "nope" (client_with_databases []) =
  (Raise (ValueError (invalid_database_message "nope")),
   client_with_databases []).
Proof.
  refine (proj1
    (unknown_database_refused registry_response_complete
       example_show_strategies_command example_show_databases_command
       example_show_info_command name_list_response string string string
       string status_line_response status_line_response status_line_response
       example_Word example_define_word_command example_match_command
       "nope" ["wn"; "foldoc"]%string (client_with_databases [])
       (client_with_databases []) _ _));
    vm_compute; reflexivity.
Defined.

Lemma unknown_strategy_refused_witness :
  example_match "cat" "*" "soundex"
    (snd (example_strategies (ready_client [Data strategies_reply]))) =
  (Raise (ValueError (unknown_strategy_message "soundex")),
   snd (example_strategies (ready_client [Data strategies_reply]))).
Proof.
  refine (unknown_strategy_refused registry_response_complete
            example_show_strategies_command example_show_databases_command
            name_list_response string string status_line_response
            example_Word example_match_command "cat" "*" "soundex"
            ["exact Match exactly"; "prefix Match prefixes"]%string
            (snd (example_strategies (ready_client [Data strategies_reply])))
            (snd (example_strategies (ready_client [Data strategies_reply])))
            (snd (example_strategies (ready_client [Data strategies_reply])))
            (or_introl (conj eq_refl eq_refl)) _ _ _).
  - discriminate.
  - vm_compute. reflexivity.
  - reflexivity.
Defined.

Lemma lookup_is_one_request_witness :
  example_define "cat" "*" (ready_client [Data (b"552 no match" ++ CRLF)]) =
  _get_response registry_response_complete
    (example_define_word_command "cat" "*") status_line_response
    (ready_client [Data (b"552 no match" ++ CRLF)]).
Proof.
  exact (proj1
    (proj1
       (lookup_is_one_request registry_response_complete
          example_show_strategies_command example_show_databases_command
          example_show_info_command name_list_response string string string
          string status_line_response status_line_response
          status_line_response example_Word example_define_word_command
          example_match_command "cat" "*" "."
          (ready_client [Data (b"552 no match" ++ CRLF)])
          (or_introl eq_refl) (or_introl eq_refl))
       "cat"%string eq_refl)).
Defined.

(** A lookup in a database by name: the databases are asked for first,
    once, and the definition second. *)
Example define_asks_for_databases_first :
  calls
    (sock
       (snd (example_define "cat" "wn"
               (ready_client
                  [Data databases_reply; Data (b"552 no match" ++ CRLF)])))) =
  [sendall_call example_show_databases_command; select_call 5;
   recv_call BUF_SIZE;
   sendall_call (example_define_word_command "cat" "wn"); select_call 5;
   recv_call BUF_SIZE].
Proof. vm_compute. reflexivity. Qed.

(** ** Replies after a Preliminary status, and reads without a status *)

Lemma int_needs_digit (x : bytes) (v : Z) :
  int x = Some v -> (0 < count_digits x)%nat.
Proof.
  unfold int. destruct (skip_space_digits x) as [<- _].
  destruct (skip_space x) as [|c s]; [discriminate|].
  assert (Hdigits : forall sign s',
    match s' with
    | [] => None
    | c' :: _ =>
        match digit_value c' with
        | Some _ =>
            match scan_digits 0 false s' with
            | Some (n, rest) =>
                match skip_space rest with
                | [] => Some (sign * n)
                | _ :: _ => None
                end
            | None => None
            end
        | None => None
        end
    end = Some v -> (0 < count_digits s')%nat).
  { intros sign [|c' s']; [discriminate|]. cbn [count_digits].
    destruct (digit_value c'); [lia | discriminate]. }
  destruct (Byte.eqb c x2b) eqn:Hplus.
  { intros Hv. apply (Hdigits 1 s) in Hv. cbn [count_digits].
    destruct (digit_value c); lia. }
  destruct (Byte.eqb c x2d) eqn:Hminus.
  { intros Hv. apply (Hdigits (-1) s) in Hv. cbn [count_digits].
    destruct (digit_value c); lia. }
  exact (Hdigits 1 (c :: s)).
Qed.

Section Replies.

Variable response_complete : Z -> bool.

(** X15: a reply that [_recv_all] returns after a first read whose status
    is not classified as complete begins with the bytes of that first
    read, ends with CRLF, and holds the digits 250 at its start or after
    a CRLF. *)
Theorem preliminary_reply_shape (self self' : DictionaryClient)
  (segment reply : bytes) (rest : list event) (code : Z) :
  closed (sock self) = false ->
  wait_readable 5 (pending (sock self)) = (true, Data segment :: rest) ->
  _get_status (firstn BUF_SIZE segment) = Ok code ->
  response_complete code = false ->
  _recv_all response_complete self = (Ok reply, self') ->
  (exists more, reply = firstn BUF_SIZE segment ++ more) /\
  (exists before, reply = before ++ CRLF) /\
  ((exists after, reply = b"250" ++ after) \/
   (exists before after, reply = before ++ (CRLF ++ b"250") ++ after)).
Proof.
  intros Hopen Hwait Hstatus Hpreliminary.
  rewrite (recv_all_first_read response_complete self _ _ Hopen Hwait).
  rewrite Hstatus, Hpreliminary. intros Hrun.
  destruct (receive_rest_outcome code (firstn BUF_SIZE segment)
              (after_first_read self segment rest) eq_refl) as [k Hk].
  rewrite Hrun in Hk. destruct Hk as (_ & _ & Hcomplete & Hmore & _).
  split; [exact Hmore|].
  unfold _response_complete in Hcomplete.
  apply andb_true_iff in Hcomplete as [Hterminator Hcrlf].
  apply bytes_eqb_eq, slice_last_iff in Hcrlf.
  apply orb_true_iff in Hterminator.
  rewrite startswith_iff, contains_iff in Hterminator. tauto.
Qed.

(** X16: a first read that holds no digit among its first three bytes,
    as the empty read that a closed connection gives, makes [_recv_all]
    raise the [ValueError] of [int] at once, whatever the registry. *)
Theorem recv_all_without_digit (self : DictionaryClient) (segment : bytes)
  (rest : list event) :
  closed (sock self) = false ->
  wait_readable 5 (pending (sock self)) = (true, Data segment :: rest) ->
  count_digits (slice_to 3 (firstn BUF_SIZE segment)) = 0%nat ->
  _recv_all response_complete self =
  (Raise (ValueError (slice_to 3 (firstn BUF_SIZE segment))),
   after_first_read self segment rest).
Proof.
  intros Hopen Hwait Hdigits.
  rewrite (recv_all_first_read response_complete self _ _ Hopen Hwait).
  unfold _get_status.
  destruct (int (slice_to 3 (firstn BUF_SIZE segment))) as [v|] eqn:Hint;
    [|reflexivity].
  apply int_needs_digit in Hint. lia.
Qed.

End Replies.

Lemma preliminary_reply_shape_witness :
  (exists more, year_entry_first = firstn BUF_SIZE year_entry_first ++ more) /\
  (exists before, year_entry_first = before ++ CRLF) /\
  ((exists after, year_entry_first = b"250" ++ after) \/
   (exists before after,
      year_entry_first = before ++ (CRLF ++ b"250") ++ after)).
Proof.
  refine (preliminary_reply_shape registry_response_complete
            (ready_client year_entry_script) _ year_entry_first
            year_entry_first [Data year_entry_second] 150
            eq_refl eq_refl eq_refl eq_refl _).
  vm_compute. reflexivity.
Defined.

Lemma recv_all_without_digit_witness :
  example_recv_all (ready_client [Data []]) =
  (Raise (ValueError []), after_first_read (ready_client [Data []]) [] []).
Proof.
  exact (recv_all_without_digit registry_response_complete
           (ready_client [Data []]) [] [] eq_refl eq_refl eq_refl).
Defined.
